(** * aecShaper: boundary shapes of aecSpace

    A shallow embedding of [aecSpace/aecShaper.py] and the properties of
    its point loops.

    Numbers.  Python's numeric arguments ([int] and [float]) are modelled
    as real numbers: [+], [-], [*], [/] are the exact operations and the
    comparisons are the exact comparisons.  Rounding of binary floating
    point is outside of this model. *)

From Stdlib Require Import Reals Lra Lia List ZArith Bool.
From Equations Require Import Equations.
Import ListNotations.

Open Scope R_scope.

(** ** Points *)

(** Modelled from the spec: the class [aecPoint] of [aecSpace/aecPoint.py]
    is not part of the sources at hand.  The spec describes it as the value
    object "Point2D: (x: float, y: float, z: float = 0). Immutable;
    equality by value", so a point is a record of three numbers and the
    two-argument constructor call [aecPoint(x, y)] leaves [z] at 0.
    [px p], [py p] and [pz p] are the attributes [p.x], [p.y], [p.z]. *)
Record aecPoint : Type := mkPoint { px : R; py : R; pz : R }.

Definition aecPoint2 (x y : R) : aecPoint := mkPoint x y 0.

(** [point.xy]: the coordinate pair handed to the geometry library. *)
Definition coord : Type := (R * R)%type.

Definition xy (p : aecPoint) : coord := (px p, py p).

(** ** Values returned by the generators

    Every generator is annotated as returning a list of points and
    documents [None] as its failure value; [makePolygon] has one more
    return statement, [return False]. *)
Inductive pyret : Type :=
| Loop (points : list aecPoint)
| PyNone
| PyFalse.

(** ** Measures on point loops *)

Definition cross (p q : aecPoint) : R := px p * py q - px q * py p.

(** Shoelace sum of the closed loop [l]: the sum of [cross] over the
    consecutive pairs, the last point being paired with [first]. *)
Fixpoint shoelace_from (first : aecPoint) (l : list aecPoint) : R :=
  match l with
  | [] => 0
  | p :: tl =>
      match tl with
      | [] => cross p first
      | q :: _ => cross p q + shoelace_from first tl
      end
  end.

Definition shoelace (l : list aecPoint) : R :=
  match l with
  | [] => 0
  | p :: _ => shoelace_from p l
  end.

Definition signed_area (l : list aecPoint) : R := shoelace l / 2.

Definition ccw (l : list aecPoint) : Prop := 0 < signed_area l.

(** The loop stores no closing vertex: its last point differs from its
    first one. *)
Definition open_loop (l : list aecPoint) : Prop :=
  match l with
  | [] => False
  | p :: _ => last l p <> p
  end.

(** The four corners of the axis-aligned rectangle with lower left corner
    [(x, y)], as [makeBox] lists them. *)
Definition box_points (x y xSize ySize : R) : list aecPoint :=
  [ mkPoint x y 0; mkPoint (x + xSize) y 0;
    mkPoint (x + xSize) (y + ySize) 0; mkPoint x (y + ySize) 0 ].

(** Simple loops.  Two points are compared in the plane; [on_segment a b p]
    says that [p] lies on the closed segment from [a] to [b].  Edge [i] of
    a loop runs from vertex [i] to vertex [next_index l i], the last edge
    closing the loop.  A loop is simple when it has at least three
    vertices, no two of which coincide, and two different edges meet only
    where consecutive edges share their vertex. *)
Definition same_xy (p q : aecPoint) : Prop := px p = px q /\ py p = py q.

Definition on_segment (a b p : aecPoint) : Prop :=
  exists t, 0 <= t <= 1 /\
            px p = px a + t * (px b - px a) /\
            py p = py a + t * (py b - py a).

Definition vertex_at (l : list aecPoint) (i : nat) : aecPoint :=
  nth i l (mkPoint 0 0 0).

Definition next_index (l : list aecPoint) (i : nat) : nat :=
  (S i) mod (length l).

Definition on_edge (l : list aecPoint) (i : nat) (p : aecPoint) : Prop :=
  on_segment (vertex_at l i) (vertex_at l (next_index l i)) p.

Definition simple (l : list aecPoint) : Prop :=
  (3 <= length l)%nat /\
  (forall i j, (i < length l)%nat -> (j < length l)%nat -> i <> j ->
               ~ same_xy (vertex_at l i) (vertex_at l j)) /\
  (forall i j p, (i < length l)%nat -> (j < length l)%nat -> i <> j ->
                 on_edge l i p -> on_edge l j p ->
                 (j = next_index l i /\ same_xy p (vertex_at l j)) \/
                 (i = next_index l j /\ same_xy p (vertex_at l i))).

(** The side of the directed line from [a] to [b] on which [p] lies:
    positive on the left. *)
Definition side (a b p : aecPoint) : R :=
  (px b - px a) * (py p - py a) - (py b - py a) * (px p - px a).

(** The outline of a cross: the union of the vertical arm
    [x1, x2] x [y0, y3] and the horizontal arm [x0, x3] x [y1, y2],
    counter-clockwise from the lower left corner of the vertical arm. *)
Definition cross_outline (x0 x1 x2 x3 y0 y1 y2 y3 : R) : list aecPoint :=
  [ aecPoint2 x1 y0; aecPoint2 x2 y0; aecPoint2 x2 y1; aecPoint2 x3 y1;
    aecPoint2 x3 y2; aecPoint2 x2 y2; aecPoint2 x2 y3; aecPoint2 x1 y3;
    aecPoint2 x1 y2; aecPoint2 x0 y2; aecPoint2 x0 y1; aecPoint2 x1 y1 ].

(** For a regular [n]-gon, the sign of [side] for the vertex [m] steps
    after the start of an edge is that of [step_sign n m]. *)
Definition step_sign (n : nat) (m : Z) : R :=
  sin (IZR (m - 1) * (PI / INR n)) * sin (IZR m * (PI / INR n)).

(** ** makeBox

    With numeric arguments no statement in the [try] block of a generator
    raises, apart from the calls into the geometry library made by
    [__add]; the [except] clauses of the other generators are therefore
    not represented. *)

Definition makeBox (origin : aecPoint) (xSize ySize : R) : pyret :=
  Loop [ aecPoint2 (px origin) (py origin);
         aecPoint2 (px origin + xSize) (py origin);
         aecPoint2 (px origin + xSize) (py origin + ySize);
         aecPoint2 (px origin) (py origin + ySize) ].

(** ** Effects

    Two effects of the generators are recorded: a call of the union
    engine [__add] (with the list of loops it received), and a traceback
    printed by an [except] clause. *)
Inductive event : Type :=
| EvUnion (pointSet : list pyret)
| EvTraceback.

Definition M (A : Type) : Type := (A * list event)%type.

Definition ret {A : Type} (a : A) : M A := (a, []).

Definition bind {A B : Type} (c : M A) (k : A -> M B) : M B :=
  let (a, t1) := c in
  let (b, t2) := k a in
  (b, t1 ++ t2).

Definition tell (e : event) : M unit := (tt, [e]).

Notation "x <- c ;; k" := (bind c (fun x => k))
  (at level 61, c at next level, right associativity).
Notation "c ;;; k" := (bind c (fun _ => k))
  (at level 61, right associativity).

Definition result {A : Type} (c : M A) : A := fst c.
Definition trace {A : Type} (c : M A) : list event := snd c.

(** A call of the union engine occurs in a trace. *)
Definition is_union (e : event) : bool :=
  match e with EvUnion _ => true | EvTraceback => false end.

Definition union_invoked {A : Type} (c : M A) : bool :=
  existsb is_union (trace c).

(** ** The geometry library

    [shapely] is an external library.  Its values are modelled by their
    type and, for a polygon, by the coordinates of its rings; its
    operations are the fields of a class, [None] standing for a raised
    exception.  [exterior] is the closed ring as [exterior.coords] lists
    it: the first coordinate is repeated at the end. *)
Inductive geometry : Type :=
| Polygon (exterior : list coord) (interiors : list (list coord))
| MultiPolygon (parts : list (list coord))
| OtherGeometry.

Class Shapely : Type := {
  shapely_Polygon : list coord -> option geometry;
  shapely_orient : geometry -> option geometry;
  shapely_MultiPolygon : list geometry -> option geometry;
  shapely_unary_union : geometry -> option geometry
}.

(** [type(g) == shapely.polygon.Polygon] *)
Definition is_Polygon (g : geometry) : bool :=
  match g with Polygon _ _ => true | _ => false end.

(** ** Python helpers *)

(** [not v] for an optional numeric argument: [None] and zero are falsy,
    every other number is truthy. *)
Definition falsy (v : option R) : bool :=
  match v with
  | None => true
  | Some r => if Req_dec_T r 0 then true else false
  end.

(** [if not v: v = d]: the number held by [v] after the statement. *)
Definition or_default (v : option R) (d : R) : R :=
  if falsy v then d
  else match v with Some r => r | None => d end.

(** [int(x)]: truncation towards zero. *)
Definition py_int (x : R) : Z :=
  if Rle_dec 0 x then Int_part x else (- Int_part (- x))%Z.

(** ** makePolygon and makeCylinder *)

(** The loop [while count < sides] with its variables [count], [angle]
    and [points]; it ends because [sides - count] decreases. *)
Equations? polygon_while (origin : aecPoint) (radius incAngle : R)
    (sides count : Z) (angle : R) (points : list aecPoint)
    : list aecPoint by wf (Z.to_nat (sides - count)) lt :=
  polygon_while origin radius incAngle sides count angle points
    with Z_lt_dec count sides := {
    | left _ =>
        let x := px origin + (radius * cos angle) in
        let y := py origin + (radius * sin angle) in
        polygon_while origin radius incAngle sides (count + 1)
          (angle + incAngle) (points ++ [aecPoint2 x y]);
    | right _ => points }.
Proof. lia. Qed.

Definition makePolygon (origin : aecPoint) (radius sides : R) : pyret :=
  let radius := Rabs radius in
  if Req_dec_T radius 0 then PyFalse else
  let sides := py_int (Rabs sides) in
  let sides := if (sides <? 3)%Z then 3%Z else sides in
  let angle := PI * 0.5 in
  let incAngle := (PI * 2) / IZR sides in
  Loop (polygon_while origin radius incAngle sides 0 angle []).

(** The vertex of the regular polygon at angle [angle], and the [n]
    vertices from [angle] on in steps of [incAngle]: what the loop
    appends, as lemma [polygon_while_vertices] shows. *)
Definition vertex (origin : aecPoint) (radius angle : R) : aecPoint :=
  aecPoint2 (px origin + (radius * cos angle))
            (py origin + (radius * sin angle)).

Fixpoint vertices (origin : aecPoint) (radius incAngle : R)
    (n : nat) (angle : R) : list aecPoint :=
  match n with
  | O => []
  | S k => vertex origin radius angle
           :: vertices origin radius incAngle k (angle + incAngle)
  end.

Definition makeCylinder (origin : aecPoint) (radius : R) : pyret :=
  let sides := if Rlt_dec radius 3 then 3 else radius in
  makePolygon origin radius sides.

(** ** The union engine *)

Definition obind {A B : Type} (o : option A) (k : A -> option B) : option B :=
  match o with Some a => k a | None => None end.

Section Engine.

Context {lib : Shapely}.

(** The [for points in pointSet] loop of [__add]; [None] is an exception:
    an entry that is not a list, a constructor that raises, or the
    explicit [raise Exception]. *)
Fixpoint add_boundaries (pointSet : list pyret) : option (list geometry) :=
  match pointSet with
  | [] => Some []
  | Loop points :: rest =>
      obind (shapely_Polygon (map xy points)) (fun g =>
      obind (shapely_orient g) (fun polygon =>
      if is_Polygon polygon
      then obind (add_boundaries rest) (fun bs => Some (polygon :: bs))
      else None))
  | _ :: _ => None
  end.

(** The body of the [try] block of [__add]. *)
Definition add_try (pointSet : list pyret) : option pyret :=
  obind (add_boundaries pointSet) (fun boundaries =>
  obind (shapely_MultiPolygon boundaries) (fun mp =>
  obind (shapely_unary_union mp) (fun boundary =>
  match boundary with
  | Polygon exterior _ =>
      Some (Loop (map (fun pnt => aecPoint2 (fst pnt) (snd pnt))
                      (removelast exterior)))
  | _ => Some PyNone
  end))).

Definition __add (pointSet : list pyret) : M pyret :=
  tell (EvUnion pointSet) ;;;
  match add_try pointSet with
  | Some r => ret r
  | None => tell EvTraceback ;;; ret PyNone
  end.

(** ** Composite builders *)

Definition makeCross (origin : aecPoint) (xSize ySize : R)
    (xWidth yDepth : option R) (xAxis yAxis : R) : M pyret :=
  let xWidth := or_default xWidth (xSize * 0.5) in
  let yDepth := or_default yDepth (ySize * 0.5) in
  let xPnt := aecPoint2 (px origin + ((yAxis * xSize) - (xWidth * 0.5)))
                        (py origin) in
  let yPnt := aecPoint2 (px origin)
                        (py origin + ((xAxis * ySize) - (yDepth * 0.5))) in
  let armX := makeBox xPnt xWidth ySize in
  let armY := makeBox yPnt xSize yDepth in
  __add [armX; armY].

Definition makeH (origin : aecPoint) (xSize ySize : R)
    (xWidth1 xWidth2 yDepth : option R) : M pyret :=
  let xWidth1 := or_default xWidth1 (xSize * 0.3) in
  let xWidth2 := or_default xWidth2 (xSize * 0.3) in
  let yDepth := or_default yDepth (ySize * 0.3) in
  if Rge_dec xWidth1 (xSize * 0.5) then ret PyNone else
  if Rge_dec xWidth2 (xSize * 0.5) then ret PyNone else
  if Rge_dec yDepth ySize then ret PyNone else
  let arm1 := makeBox origin xWidth1 ySize in
  let oPnt := aecPoint2 (px origin + (xSize - xWidth2)) (py origin) in
  let arm2 := makeBox oPnt xWidth2 ySize in
  let oPnt := aecPoint2 (px origin)
                        (py origin + ((ySize * 0.5) - (yDepth * 0.5))) in
  let arm3 := makeBox oPnt xSize yDepth in
  __add [arm1; arm2; arm3].

Definition makeL (origin : aecPoint) (xSize ySize : R)
    (xWidth yDepth : option R) : M pyret :=
  let xWidth := or_default xWidth (xSize * 0.5) in
  let yDepth := or_default yDepth (ySize * 0.5) in
  if Rge_dec xWidth xSize then ret PyNone else
  if Rge_dec yDepth ySize then ret PyNone else
  let armX := makeBox origin xWidth ySize in
  let armY := makeBox origin xSize yDepth in
  __add [armX; armY].

Definition makeT (origin : aecPoint) (xSize ySize : R)
    (xWidth yDepth : option R) : M pyret :=
  let xWidth := or_default xWidth (xSize * 0.5) in
  let yDepth := or_default yDepth (ySize * 0.5) in
  if Rge_dec xWidth xSize then ret PyNone else
  if Rge_dec yDepth ySize then ret PyNone else
  let oPnt := aecPoint2 (px origin) (py origin + (ySize - yDepth)) in
  let arm1 := makeBox oPnt xSize yDepth in
  let oPnt := aecPoint2 (px origin + ((xSize * 0.5) - (xWidth * 0.5)))
                        (py origin) in
  let arm2 := makeBox oPnt xWidth ySize in
  __add [arm1; arm2].

Definition makeU (origin : aecPoint) (xSize ySize : R)
    (xWidth1 xWidth2 yDepth : option R) : M pyret :=
  let xWidth1 := or_default xWidth1 (xSize * 0.3) in
  let xWidth2 := or_default xWidth2 (xSize * 0.3) in
  let yDepth := or_default yDepth (ySize * 0.3) in
  if Rge_dec xWidth1 (xSize * 0.5) then ret PyNone else
  if Rge_dec xWidth2 (xSize * 0.5) then ret PyNone else
  if Rge_dec yDepth ySize then ret PyNone else
  pointsL <- makeL origin xSize ySize (Some xWidth1) (Some yDepth) ;;
  let xPoint := aecPoint2 (px origin + (xSize - xWidth2)) (py origin) in
  let pointsU := makeBox xPoint xWidth2 ySize in
  __add [pointsL; pointsU].

End Engine.

(** The width or depth a builder works with, in the words of the
    documentation: the default when the argument is missing or zero, the
    argument itself otherwise.  Lemma [width_used_or_default] compares it
    with [or_default], the check of the code. *)
Inductive width_used (dflt : R) : option R -> R -> Prop :=
| used_missing : width_used dflt None dflt
| used_zero : width_used dflt (Some 0) dflt
| used_supplied (r : R) : r <> 0 -> width_used dflt (Some r) r.

(** A supplied argument that reaches or exceeds a bound. *)
Definition reaches (v : option R) (bound : R) : Prop :=
  exists w, v = Some w /\ w >= bound.

(** ** A library instance for disjoint parts

    The geometry library as it behaves on families of pairwise disjoint
    polygons.  [Polygon] wants at least three coordinates and closes the
    ring; [orient] reverses a clockwise exterior ring; the union of one
    polygon is that polygon, the union of several disjoint ones is the
    multi-part geometry made of them.  This is the concrete library at
    which statements about an arbitrary library are exercised. *)
Fixpoint ring_sum (first : coord) (ring : list coord) : R :=
  match ring with
  | [] => 0
  | c :: tl =>
      match tl with
      | [] => fst c * snd first - fst first * snd c
      | c' :: _ => (fst c * snd c' - fst c' * snd c) + ring_sum first tl
      end
  end.

Definition close_ring (ring : list coord) : list coord :=
  match ring with
  | [] => []
  | c :: _ => ring ++ [c]
  end.

Definition exterior_of (g : geometry) : list coord :=
  match g with Polygon exterior _ => exterior | _ => [] end.

#[local] Instance disjoint_lib : Shapely := {
  shapely_Polygon ring :=
    if (length ring <? 3)%nat then None
    else Some (Polygon (close_ring ring) []);
  shapely_orient g :=
    match g with
    | Polygon exterior interiors =>
        Some (Polygon (if Rle_dec 0 (ring_sum (hd (0, 0) exterior) exterior)
                       then exterior else rev exterior) interiors)
    | _ => Some g
    end;
  shapely_MultiPolygon gs := Some (MultiPolygon (map exterior_of gs));
  shapely_unary_union g :=
    match g with
    | MultiPolygon [exterior] => Some (Polygon exterior [])
    | _ => Some g
    end
}.

(** ** Rings of the geometry library

    An exterior ring is the list of coordinates [exterior.coords] of a
    polygon.  [ring_loop] is what [__add] makes of it: the points of
    [list(boundary.exterior.coords)[:-1]].  [valid_ring] is what the
    library promises of the exterior ring of a polygon: the ring is
    closed (its last coordinate repeats the first), counter-clockwise
    (positive signed area along the ring) and simple (no two vertices
    coincide, and two segments meet only where consecutive segments
    join). *)
Definition ring_point (c : coord) : aecPoint := aecPoint2 (fst c) (snd c).

Definition ring_loop (exterior : list coord) : list aecPoint :=
  map ring_point (removelast exterior).

(** The sum of [cross] along a path, without closing it. *)
Fixpoint path_sum (l : list aecPoint) : R :=
  match l with
  | [] => 0
  | p :: tl =>
      match tl with
      | [] => 0
      | q :: _ => cross p q + path_sum tl
      end
  end.

Definition ring_closed (exterior : list coord) : Prop :=
  (4 <= length exterior)%nat
  /\ last exterior (0, 0) = hd (0, 0) exterior.

Definition ring_ccw (exterior : list coord) : Prop :=
  0 < path_sum (map ring_point exterior) / 2.

Definition ring_vertex (exterior : list coord) (i : nat) : aecPoint :=
  ring_point (nth i exterior (0, 0)).

Definition ring_simple (exterior : list coord) : Prop :=
  let m := (length exterior - 1)%nat in
  (forall i j, (i < m)%nat -> (j < m)%nat -> i <> j ->
               ~ same_xy (ring_vertex exterior i) (ring_vertex exterior j))
  /\ (forall i j p, (i < j)%nat -> (j < m)%nat ->
        on_segment (ring_vertex exterior i) (ring_vertex exterior (S i)) p ->
        on_segment (ring_vertex exterior j) (ring_vertex exterior (S j)) p ->
        (j = S i /\ same_xy p (ring_vertex exterior j))
        \/ (i = 0%nat /\ j = (m - 1)%nat /\ same_xy p (ring_vertex exterior 0))).

Definition valid_ring (exterior : list coord) : Prop :=
  ring_closed exterior /\ ring_ccw exterior /\ ring_simple exterior.

Section EngineRings.

Context {lib : Shapely}.

(** [exterior] is the exterior ring of the polygon that the library's
    union returned for the candidates [pointSet], along the steps of
    [__add]. *)
Definition union_ring (pointSet : list pyret) (exterior : list coord) : Prop :=
  exists boundaries mp interiors,
    add_boundaries pointSet = Some boundaries
    /\ shapely_MultiPolygon boundaries = Some mp
    /\ shapely_unary_union mp = Some (Polygon exterior interiors).

(** A loop returned by the run [c] is the loop of the ring that the union
    returned for the candidates of a call of [__add] made in this run. *)
Definition returns_union_ring (c : M pyret) : Prop :=
  forall l, result c = Loop l ->
    exists pointSet exterior,
      In (EvUnion pointSet) (trace c)
      /\ union_ring pointSet exterior
      /\ l = ring_loop exterior.

(** The contract of the library: the exterior ring of every polygon that
    its union returns is valid. *)
Definition library_rings_valid : Prop :=
  forall mp exterior interiors,
    shapely_unary_union mp = Some (Polygon exterior interiors) ->
    valid_ring exterior.

End EngineRings.

(** ** A library instance for nested rectangles

    The geometry library as it behaves when the first candidate is an
    axis-aligned rectangle and every other candidate lies inside it: the
    union is that rectangle.  Other families of parts are left apart, as
    in [disjoint_lib], whose constructors this instance shares.  Every
    polygon it returns is a rectangle with a closed counter-clockwise
    ring, so it is a concrete library at which the contract
    [valid_ring] holds. *)
Definition Reqb (x y : R) : bool := if Req_dec_T x y then true else false.
Definition Rltb (x y : R) : bool := if Rlt_dec x y then true else false.
Definition Rleb (x y : R) : bool := if Rle_dec x y then true else false.

Definition box_ring (x0 y0 x1 y1 : R) : list coord :=
  [(x0, y0); (x1, y0); (x1, y1); (x0, y1); (x0, y0)].

(** The corners [(x0, y0, x1, y1)] of a ring that is a closed
    counter-clockwise rectangle starting at its lower left corner. *)
Definition is_box_ring (ring : list coord) : option (R * R * R * R) :=
  match ring with
  | [a; b; c; d; e] =>
      if Rltb (fst a) (fst b) && Rltb (snd a) (snd c)
         && Reqb (snd b) (snd a) && Reqb (fst c) (fst b)
         && Reqb (fst d) (fst a) && Reqb (snd d) (snd c)
         && Reqb (fst e) (fst a) && Reqb (snd e) (snd a)
      then Some (fst a, snd a, fst b, snd c)
      else None
  | _ => None
  end.

Definition in_bounds (b : R * R * R * R) (c : coord) : bool :=
  let '(x0, y0, x1, y1) := b in
  Rleb x0 (fst c) && Rleb (fst c) x1 && Rleb y0 (snd c) && Rleb (snd c) y1.

Definition nested_lib : Shapely := {|
  shapely_Polygon := @shapely_Polygon disjoint_lib;
  shapely_orient := @shapely_orient disjoint_lib;
  shapely_MultiPolygon := @shapely_MultiPolygon disjoint_lib;
  shapely_unary_union g :=
    match g with
    | MultiPolygon (first :: rest) =>
        match is_box_ring first with
        | Some (x0, y0, x1, y1) =>
            if forallb (forallb (in_bounds (x0, y0, x1, y1))) rest
            then Some (Polygon (box_ring x0 y0 x1 y1) [])
            else Some g
        | None => Some g
        end
    | _ => Some OtherGeometry
    end
|}.

(** ** Notions used by the further properties *)

(** A loop moved by [(dx, dy)], and a function applied to the points of a
    returned loop. *)
Definition translate (dx dy : R) (p : aecPoint) : aecPoint :=
  aecPoint2 (px p + dx) (py p + dy).

Definition map_loop (f : aecPoint -> aecPoint) (r : pyret) : pyret :=
  match r with
  | Loop l => Loop (map f l)
  | PyNone => PyNone
  | PyFalse => PyFalse
  end.

(** Every point of a returned loop has [z = 0]. *)
Definition flat (r : pyret) : Prop :=
  match r with
  | Loop l => Forall (fun p => pz p = 0) l
  | _ => True
  end.

(** Squared distance of two points in the plane. *)
Definition dist2 (p q : aecPoint) : R :=
  (px p - px q) * (px p - px q) + (py p - py q) * (py p - py q).

(** The number of calls of the union engine in a run. *)
Definition union_calls {A : Type} (c : M A) : nat :=
  length (filter is_union (trace c)).

(** A candidate is a loop whose points lie in the box spanned by [origin],
    [xSize] and [ySize]. *)
Definition within_box (origin : aecPoint) (xSize ySize : R) (r : pyret) : Prop :=
  match r with
  | Loop l =>
      Forall (fun p => px origin <= px p <= px origin + xSize
                       /\ py origin <= py p <= py origin + ySize) l
  | _ => False
  end.

(** A candidate that is not a list of points. *)
Definition not_a_loop (r : pyret) : bool :=
  match r with Loop _ => false | _ => true end.

(** ** Theorems *)

(** *** The regular polygon *)

Lemma polygon_while_vertices origin radius incAngle sides n :
  forall count angle points,
    n = Z.to_nat (sides - count) ->
    polygon_while origin radius incAngle sides count angle points
    = points ++ vertices origin radius incAngle n angle.
Proof.
  induction n as [|k IH]; intros count angle points Hn; simp polygon_while.
  - destruct (Z_lt_dec count sides) as [Hlt|Hge]; [lia|].
    simpl. now rewrite app_nil_r.
  - destruct (Z_lt_dec count sides) as [Hlt|Hge]; [|lia].
    simpl. rewrite IH by lia. rewrite <- app_assoc. reflexivity.
Qed.

Lemma vertices_length origin radius incAngle n :
  forall angle, length (vertices origin radius incAngle n angle) = n.
Proof.
  induction n as [|k IH]; intros angle; simpl; [reflexivity|].
  now rewrite IH.
Qed.

Lemma vertices_nth origin radius incAngle n :
  forall angle i d, (i < n)%nat ->
    nth i (vertices origin radius incAngle n angle) d
    = vertex origin radius (angle + INR i * incAngle).
Proof.
  induction n as [|k IH]; intros angle i d Hi; [lia|].
  destruct i as [|i].
  - simpl. f_equal. ring.
  - cbn [vertices nth]. rewrite IH by lia. f_equal.
    rewrite S_INR. ring.
Qed.

Lemma Int_part_IZR (k : Z) : Int_part (IZR k) = k.
Proof. symmetry. apply Int_part_spec. lra. Qed.

Lemma py_int_nonneg (x : R) : 0 <= x -> py_int x = Int_part x.
Proof. intros H. unfold py_int. destruct (Rle_dec 0 x); [reflexivity|lra]. Qed.

Lemma py_int_Rabs (x : R) : py_int (Rabs x) = Int_part (Rabs x).
Proof. apply py_int_nonneg, Rabs_pos. Qed.

(** The side count [makePolygon] works with. *)
Lemma sides_floor (s : R) :
  (if (py_int (Rabs s) <? 3)%Z then 3%Z else py_int (Rabs s))
  = Z.max 3 (Int_part (Rabs s)).
Proof.
  rewrite py_int_Rabs.
  destruct (Z.ltb_spec (Int_part (Rabs s)) 3); lia.
Qed.

Lemma makePolygon_eq origin r s :
  r <> 0 ->
  makePolygon origin r s
  = Loop (vertices origin (Rabs r)
            ((PI * 2) / IZR (Z.max 3 (Int_part (Rabs s))))
            (Z.to_nat (Z.max 3 (Int_part (Rabs s)))) (PI * 0.5)).
Proof.
  intros Hr. unfold makePolygon.
  destruct (Req_dec_T (Rabs r) 0) as [H0|_].
  - exfalso. revert H0. apply Rabs_no_R0, Hr.
  - rewrite sides_floor.
    rewrite (polygon_while_vertices _ _ _ _
               (Z.to_nat (Z.max 3 (Int_part (Rabs s)))))
      by (f_equal; lia).
    reflexivity.
Qed.

Lemma cross_vertex origin r a b :
  cross (vertex origin r a) (vertex origin r b)
  = px origin * r * (sin b - sin a) - py origin * r * (cos b - cos a)
    + r * r * sin (b - a).
Proof. unfold cross, vertex, aecPoint2; simpl. rewrite sin_minus. ring. Qed.

(** The shoelace sum along [S m] vertices, closed by an arbitrary point
    [first]: the linear terms telescope, every step contributes
    [r * r * sin incAngle]. *)
Lemma shoelace_from_vertices origin r inc first m :
  forall a,
    shoelace_from first (vertices origin r inc (S m) a)
    = px origin * r * (sin (a + INR m * inc) - sin a)
      - py origin * r * (cos (a + INR m * inc) - cos a)
      + INR m * (r * r * sin inc)
      + cross (vertex origin r (a + INR m * inc)) first.
Proof.
  induction m as [|m IH]; intros a.
  - cbn [vertices shoelace_from INR].
    replace (a + 0 * inc) with a by ring. ring.
  - change (vertices origin r inc (S (S m)) a)
      with (vertex origin r a :: vertices origin r inc (S m) (a + inc)).
    cbn [shoelace_from].
    change (match vertices origin r inc (S m) (a + inc) with
            | [] => cross (vertex origin r a) first
            | q :: _ => cross (vertex origin r a) q
                        + shoelace_from first (vertices origin r inc (S m) (a + inc))
            end)
      with (cross (vertex origin r a) (vertex origin r (a + inc))
            + shoelace_from first (vertices origin r inc (S m) (a + inc))).
    rewrite IH, cross_vertex.
    replace (a + inc - a) with inc by ring.
    replace (a + inc + INR m * inc) with (a + INR (S m) * inc)
      by (rewrite S_INR; ring).
    rewrite (S_INR m). ring.
Qed.

Lemma sin_minus_2PI x : sin (x - 2 * PI) = sin x.
Proof. rewrite sin_minus, sin_2PI, cos_2PI. ring. Qed.

(** Twice the signed area of the regular [S m]-gon of [makePolygon]. *)
Lemma shoelace_vertices origin r m a :
  let inc := (PI * 2) / INR (S m) in
  shoelace (vertices origin r inc (S m) a) = INR (S m) * (r * r * sin inc).
Proof.
  intros inc.
  change (shoelace (vertices origin r inc (S m) a))
    with (shoelace_from (vertex origin r a) (vertices origin r inc (S m) a)).
  rewrite shoelace_from_vertices, cross_vertex.
  assert (Hn : INR (S m) <> 0) by (apply not_0_INR; lia).
  replace (a - (a + INR m * inc)) with (inc - 2 * PI).
  - rewrite sin_minus_2PI, (S_INR m). ring.
  - unfold inc. rewrite S_INR in *. field. exact Hn.
Qed.

Lemma sin_inc_pos (n : nat) : (3 <= n)%nat -> 0 < sin ((PI * 2) / INR n).
Proof.
  intros Hn.
  assert (H3 : 3 <= INR n) by (apply (le_INR 3) in Hn; simpl in Hn; lra).
  assert (Hpi := PI_RGT_0).
  apply sin_gt_0.
  - apply Rdiv_lt_0_compat; lra.
  - apply Rmult_lt_reg_r with (INR n); [lra|].
    unfold Rdiv. rewrite Rmult_assoc, Rinv_l by lra. nra.
Qed.

Lemma vertices_ccw origin r n a :
  r <> 0 -> (3 <= n)%nat ->
  ccw (vertices origin r ((PI * 2) / INR n) n a).
Proof.
  intros Hr Hn. destruct n as [|m]; [lia|].
  unfold ccw, signed_area. rewrite shoelace_vertices.
  assert (Hs := sin_inc_pos (S m) Hn).
  assert (Hm : 0 < INR (S m)) by (apply lt_0_INR; lia).
  assert (Hrr : 0 < r * r) by nra.
  apply Rdiv_lt_0_compat; [|lra].
  apply Rmult_lt_0_compat; [exact Hm|]. now apply Rmult_lt_0_compat.
Qed.

Lemma INR_to_nat_max3 (k : Z) : INR (Z.to_nat (Z.max 3 k)) = IZR (Z.max 3 k).
Proof. rewrite INR_IZR_INZ, Z2Nat.id by lia. reflexivity. Qed.

(** C8: for every origin, every nonzero radius r and every sides value s,
    makePolygon works with the radius |r| and the side count
    n = max(3, floor(|s|)); it returns exactly n points, point i being
    (origin.x + |r| cos(pi/2 + i*2*pi/n), origin.y + |r| sin(pi/2 + i*2*pi/n))
    for i = 0..n-1, so that the first vertex lies at 90 degrees, straight
    above the origin, and the loop is counter-clockwise. *)
Theorem makePolygon_regular (origin : aecPoint) (r s : R) :
  r <> 0 ->
  let n := Z.to_nat (Z.max 3 (Int_part (Rabs s))) in
  exists pts,
    makePolygon origin r s = Loop pts /\
    length pts = n /\
    (forall i, (i < n)%nat ->
       nth i pts (aecPoint2 0 0)
       = aecPoint2
           (px origin + Rabs r * cos (PI / 2 + INR i * (2 * PI / INR n)))
           (py origin + Rabs r * sin (PI / 2 + INR i * (2 * PI / INR n)))) /\
    hd (aecPoint2 0 0) pts = aecPoint2 (px origin) (py origin + Rabs r) /\
    ccw pts.
Proof.
  intros Hr n.
  assert (Hn3 : (3 <= n)%nat) by (unfold n; lia).
  assert (HnR : INR n = IZR (Z.max 3 (Int_part (Rabs s))))
    by apply INR_to_nat_max3.
  assert (Hn0 : INR n <> 0) by (apply not_0_INR; lia).
  eexists. split; [apply makePolygon_eq, Hr|].
  fold n. rewrite <- HnR.
  split; [apply vertices_length|].
  split; [|split].
  - intros i Hi. rewrite vertices_nth by exact Hi. unfold vertex.
    replace (PI * 0.5) with (PI / 2) by lra.
    replace (PI * 2 / INR n) with (2 * PI / INR n) by (field; exact Hn0).
    reflexivity.
  - destruct n as [|m]; [lia|]. cbn [vertices hd]. unfold vertex.
    replace (PI * 0.5) with (PI / 2) by lra.
    rewrite cos_PI2, sin_PI2. f_equal; ring.
  - apply vertices_ccw; [|exact Hn3]. apply Rabs_no_R0, Hr.
Qed.

Lemma makePolygon_regular_witness :
  1 <> 0 /\
  exists pts, makePolygon (aecPoint2 0 0) 1 4 = Loop pts /\
              hd (aecPoint2 0 0) pts = aecPoint2 0 (0 + Rabs 1) /\ ccw pts.
Proof.
  split; [lra|].
  destruct (makePolygon_regular (aecPoint2 0 0) 1 4)
    as (pts & H1 & _ & _ & H4 & H5); [lra|].
  exists pts. repeat split; assumption.
Defined.

(** C4 (evaluation of the code): for every origin and every sides value,
    makePolygon with radius 0 returns the value [False], which is not the
    [None] that the other failure paths (and its own docstring) use. *)
Theorem makePolygon_zero_radius_False (origin : aecPoint) (sides : R) :
  makePolygon origin 0 sides = PyFalse /\ PyFalse <> PyNone.
Proof.
  split; [|discriminate].
  unfold makePolygon. rewrite Rabs_R0.
  destruct (Req_dec_T 0 0) as [_|H]; [reflexivity|now elim H].
Qed.

(** *** makeCylinder *)

Lemma makeCylinder_small origin r :
  r < 3 -> makeCylinder origin r = makePolygon origin r 3.
Proof.
  intros H. unfold makeCylinder. destruct (Rlt_dec r 3); [reflexivity|lra].
Qed.

Lemma makeCylinder_large origin r :
  3 <= r -> makeCylinder origin r = makePolygon origin r r.
Proof.
  intros H. unfold makeCylinder. destruct (Rlt_dec r 3); [lra|reflexivity].
Qed.

Lemma Int_part_le (x y : R) : x <= y -> (Int_part x <= Int_part y)%Z.
Proof.
  intros H.
  destruct (base_Int_part x) as [Hx1 Hx2], (base_Int_part y) as [Hy1 Hy2].
  apply Z.lt_succ_r, lt_IZR. rewrite succ_IZR. lra.
Qed.

Lemma Int_part_3 : Int_part 3 = 3%Z.
Proof. exact (Int_part_IZR 3). Qed.

(** The side count chosen by [makeCylinder] and cut by [makePolygon]. *)
Lemma makeCylinder_sides r :
  Z.max 3 (Int_part (Rabs (if Rlt_dec r 3 then 3 else r)))
  = Z.max 3 (Int_part r).
Proof.
  destruct (Rlt_dec r 3) as [Hlt|Hge].
  - rewrite Rabs_pos_eq, Int_part_3 by lra.
    assert (H := Int_part_le r 3 (Rlt_le _ _ Hlt)). rewrite Int_part_3 in H.
    lia.
  - rewrite Rabs_pos_eq by lra. reflexivity.
Qed.

(** C7 (as stated) fails at the radius 3.5: the loop has 3 points, and 3
    is not max(3, 3.5). *)
Lemma makeCylinder_sides_counterexample :
  exists pts, makeCylinder (aecPoint2 0 0) 3.5 = Loop pts /\
              length pts = 3%nat /\
              INR (length pts) <> Rmax 3 3.5.
Proof.
  assert (Hi : Int_part (Rabs 3.5) = 3%Z).
  { symmetry. apply Int_part_spec. rewrite Rabs_pos_eq by lra. lra. }
  eexists. split; [|split].
  - rewrite makeCylinder_large by lra. apply makePolygon_eq. lra.
  - rewrite vertices_length, Hi. reflexivity.
  - rewrite vertices_length, Hi. rewrite Rmax_right by lra.
    change (INR (Z.to_nat (Z.max 3 3))) with (INR 3). simpl. lra.
Qed.

(** C7 (amended): for every nonzero radius r, makeCylinder delegates to
    makePolygon with sides = r when r >= 3 and sides = 3 otherwise, and
    the polygon it returns has exactly max(3, floor(r)) sides; this is r
    itself when r is an integer that is at least 3. *)
Theorem makeCylinder_side_count (origin : aecPoint) (r : R) :
  r <> 0 ->
  makeCylinder origin r = makePolygon origin r (if Rlt_dec r 3 then 3 else r) /\
  exists pts,
    makeCylinder origin r = Loop pts /\
    length pts = Z.to_nat (Z.max 3 (Int_part r)) /\
    (forall k : Z, r = IZR k -> (3 <= k)%Z -> length pts = Z.to_nat k).
Proof.
  intros Hr. split; [reflexivity|].
  unfold makeCylinder. rewrite makePolygon_eq by exact Hr.
  rewrite makeCylinder_sides.
  eexists. split; [reflexivity|]. rewrite vertices_length.
  split; [reflexivity|].
  intros k -> Hk. rewrite Int_part_IZR. f_equal. lia.
Qed.

Lemma makeCylinder_side_count_witness :
  5 <> 0 /\
  exists pts, makeCylinder (aecPoint2 0 0) 5 = Loop pts /\
              length pts = 5%nat.
Proof.
  split; [lra|].
  destruct (makeCylinder_side_count (aecPoint2 0 0) 5) as (_ & pts & H1 & _ & H3);
    [lra|].
  exists pts. split; [exact H1|]. exact (H3 5%Z eq_refl ltac:(lia)).
Defined.

(** C10: for every negative radius r, whatever its magnitude,
    makeCylinder returns the three-sided regular polygon of circumradius
    |r| centred at the origin: the signed radius is compared with 3
    before the absolute value is taken, so the side count is 3. *)
Theorem makeCylinder_negative_radius (origin : aecPoint) (r : R) :
  r < 0 ->
  makeCylinder origin r = makePolygon origin r 3 /\
  makeCylinder origin r
  = Loop [ vertex origin (Rabs r) (PI / 2);
           vertex origin (Rabs r) (PI / 2 + 2 * PI / 3);
           vertex origin (Rabs r) (PI / 2 + 2 * (2 * PI / 3)) ] /\
  (forall a,
     (px (vertex origin (Rabs r) a) - px origin) ^ 2
     + (py (vertex origin (Rabs r) a) - py origin) ^ 2 = Rabs r ^ 2).
Proof.
  intros Hr. split; [apply makeCylinder_small; lra|]. split.
  - rewrite makeCylinder_small, makePolygon_eq by lra.
    rewrite (Rabs_pos_eq 3), Int_part_3 by lra.
    change (Z.to_nat (Z.max 3 3)) with 3%nat.
    change (IZR (Z.max 3 3)) with 3.
    cbn [vertices].
    replace (PI * 0.5) with (PI / 2) by lra.
    replace (PI * 2 / 3) with (2 * PI / 3) by lra.
    replace (PI / 2 + 2 * PI / 3 + 2 * PI / 3)
      with (PI / 2 + 2 * (2 * PI / 3)) by lra.
    reflexivity.
  - intros a. unfold vertex, aecPoint2; simpl.
    replace (px origin + Rabs r * cos a - px origin) with (Rabs r * cos a) by ring.
    replace (py origin + Rabs r * sin a - py origin) with (Rabs r * sin a) by ring.
    assert (H := sin2_cos2 a). unfold Rsqr in H.
    replace (Rabs r * cos a * (Rabs r * cos a * 1)
             + Rabs r * sin a * (Rabs r * sin a * 1))
      with (Rabs r * (Rabs r * 1) * (sin a * sin a + cos a * cos a)) by ring.
    rewrite H. ring.
Qed.

Lemma makeCylinder_negative_radius_witness :
  -7 < 0 /\ makeCylinder (aecPoint2 0 0) (-7) = makePolygon (aecPoint2 0 0) (-7) 3.
Proof.
  split; [lra|].
  exact (proj1 (makeCylinder_negative_radius (aecPoint2 0 0) (-7) ltac:(lra))).
Defined.

(** *** makeBox *)

(** C9: for every origin and all xSize > 0, ySize > 0, makeBox returns
    exactly the four points (x,y), (x+xSize,y), (x+xSize,y+ySize),
    (x,y+ySize), in this counter-clockwise order starting at the origin,
    and the signed area of the loop is xSize*ySize. *)
Theorem makeBox_points_area (origin : aecPoint) (xSize ySize : R) :
  0 < xSize -> 0 < ySize ->
  exists l,
    makeBox origin xSize ySize = Loop l /\
    l = [ aecPoint2 (px origin) (py origin);
          aecPoint2 (px origin + xSize) (py origin);
          aecPoint2 (px origin + xSize) (py origin + ySize);
          aecPoint2 (px origin) (py origin + ySize) ] /\
    length l = 4%nat /\
    signed_area l = xSize * ySize /\
    ccw l.
Proof.
  intros Hx Hy. eexists. split; [reflexivity|]. split; [reflexivity|].
  split; [reflexivity|].
  assert (Harea : signed_area
            [ aecPoint2 (px origin) (py origin);
              aecPoint2 (px origin + xSize) (py origin);
              aecPoint2 (px origin + xSize) (py origin + ySize);
              aecPoint2 (px origin) (py origin + ySize) ] = xSize * ySize).
  { unfold signed_area, shoelace, shoelace_from, cross. simpl. field. }
  split; [exact Harea|]. unfold ccw. rewrite Harea. nra.
Qed.

Lemma makeBox_points_area_witness :
  exists l, makeBox (aecPoint2 1 2) 3 4 = Loop l /\
            signed_area l = 3 * 4 /\ ccw l.
Proof.
  destruct (makeBox_points_area (aecPoint2 1 2) 3 4) as (l & H1 & _ & _ & H4 & H5);
    [lra | lra |].
  exists l. repeat split; assumption.
Defined.

Lemma last_nth_pred (l : list aecPoint) (d : aecPoint) :
  last l d = nth (length l - 1) l d.
Proof.
  induction l as [|p tl IH]; [reflexivity|].
  destruct tl as [|q tl]; [reflexivity|].
  change (last (p :: q :: tl) d) with (last (q :: tl) d).
  rewrite IH. cbn [length]. rewrite !Nat.sub_succ, !Nat.sub_0_r. reflexivity.
Qed.

Lemma open_loop_intro (l : list aecPoint) :
  (2 <= length l)%nat ->
  ~ same_xy (vertex_at l (length l - 1)) (vertex_at l 0) ->
  open_loop l.
Proof.
  intros Hlen Hne. destruct l as [|p tl]; [simpl in Hlen; lia|].
  unfold open_loop. intros Hlast. apply Hne.
  unfold vertex_at.
  rewrite (nth_indep _ _ p) by lia. rewrite <- last_nth_pred, Hlast.
  split; reflexivity.
Qed.

(** *** The regular polygon is a simple loop *)

Lemma sin_sum_identity x y :
  sin (2 * x) + sin (2 * y) - sin (2 * x + 2 * y)
  = 4 * sin x * sin y * sin (x + y).
Proof.
  replace (2 * x + 2 * y) with (2 * (x + y)) by ring.
  rewrite !sin_2a, sin_plus, cos_plus.
  assert (Hx := sin2_cos2 x). assert (Hy := sin2_cos2 y).
  unfold Rsqr in Hx, Hy.
  replace (2 * sin x * cos x) with (2 * sin x * cos x * (sin y * sin y + cos y * cos y))
    by (rewrite Hy; ring).
  replace (2 * sin y * cos y) with (2 * sin y * cos y * (sin x * sin x + cos x * cos x))
    by (rewrite Hx; ring).
  ring.
Qed.

Section Steps.
Variable n : nat.
Hypothesis Hn : (3 <= n)%nat.
Let h := PI / INR n.

Lemma INR_n_pos : 0 < INR n.
Proof. apply lt_0_INR. lia. Qed.

Lemma h_pos : 0 < h.
Proof. unfold h. apply Rdiv_lt_0_compat; [apply PI_RGT_0|apply INR_n_pos]. Qed.

Lemma nh : INR n * h = PI.
Proof. unfold h. field. apply Rgt_not_eq, INR_n_pos. Qed.

Lemma sin_step_pos (m : Z) :
  (0 < m < Z.of_nat n)%Z -> 0 < sin (IZR m * h).
Proof.
  intros [H1 H2]. assert (Hh := h_pos). assert (Hnh := nh).
  apply IZR_lt in H1, H2. rewrite <- INR_IZR_INZ in H2.
  apply sin_gt_0; nra.
Qed.

Lemma sin_step_neg (m : Z) :
  (- Z.of_nat n < m < 0)%Z -> sin (IZR m * h) < 0.
Proof.
  intros [H1 H2]. assert (Hh := h_pos). assert (Hnh := nh).
  apply IZR_lt in H1, H2. rewrite opp_IZR, <- INR_IZR_INZ in H1.
  apply sin_lt_0_var; nra.
Qed.

Lemma step_sign_pos (m : Z) :
  (2 <= m <= Z.of_nat n - 1)%Z \/ (- (Z.of_nat n - 2) <= m <= -1)%Z ->
  0 < step_sign n m.
Proof.
  intros [H|H]; unfold step_sign; fold h.
  - apply Rmult_lt_0_compat; apply sin_step_pos; lia.
  - assert (H1 : sin (IZR (m - 1) * h) < 0) by (apply sin_step_neg; lia).
    assert (H2 : sin (IZR m * h) < 0) by (apply sin_step_neg; lia).
    nra.
Qed.

Lemma step_sign_nonneg (m : Z) :
  (- (Z.of_nat n - 1) <= m <= Z.of_nat n)%Z -> 0 <= step_sign n m.
Proof.
  intros H. assert (Hnh := nh).
  destruct (Z.eq_dec m 0) as [->|H0].
  { unfold step_sign; fold h. rewrite Rmult_0_l, sin_0. lra. }
  destruct (Z.eq_dec m 1) as [->|H1].
  { unfold step_sign; fold h. change (IZR (1 - 1)) with 0. rewrite Rmult_0_l, sin_0. lra. }
  destruct (Z.eq_dec m (Z.of_nat n)) as [->|H2].
  { unfold step_sign; fold h. rewrite <- INR_IZR_INZ, Hnh, sin_PI. lra. }
  destruct (Z.eq_dec m (- (Z.of_nat n - 1))) as [->|H3].
  { unfold step_sign; fold h.
    replace (- (Z.of_nat n - 1) - 1)%Z with (- Z.of_nat n)%Z by lia.
    rewrite opp_IZR, <- INR_IZR_INZ.
    replace (- INR n * h) with (- PI) by lra.
    rewrite sin_neg, sin_PI. lra. }
  apply Rlt_le, step_sign_pos. lia.
Qed.

End Steps.

Lemma side_vertex origin r a b c :
  side (vertex origin r a) (vertex origin r b) (vertex origin r c)
  = r * r * (sin (c - b) + sin (b - a) - sin (c - a)).
Proof.
  unfold side, vertex, aecPoint2; simpl. rewrite !sin_minus. ring.
Qed.

Section RegularPolygon.

Variables (origin : aecPoint) (r a : R) (n : nat).
Hypothesis Hr : r <> 0.
Hypothesis Hn : (3 <= n)%nat.

Let inc := (PI * 2) / INR n.
Let h := PI / INR n.
Let W (k : nat) := vertex origin r (a + INR k * inc).
Let l := vertices origin r inc n a.

Lemma regular_vertex_at k : (k < n)%nat -> vertex_at l k = W k.
Proof. intros Hk. unfold vertex_at, l. now apply vertices_nth. Qed.

Lemma regular_wrap : W n = W 0%nat.
Proof.
  unfold W, vertex. assert (Hp := INR_n_pos n Hn).
  replace (a + INR 0 * inc) with a by (simpl; ring).
  replace (a + INR n * inc) with (a + 2 * PI) by (unfold inc; field; lra).
  rewrite (cos_plus a), (sin_plus a), cos_2PI, sin_2PI.
  f_equal; ring.
Qed.

Lemma regular_next k :
  (k < n)%nat -> vertex_at l (next_index l k) = W (S k).
Proof.
  intros Hk. unfold next_index. unfold l at 2. rewrite vertices_length.
  destruct (Nat.eq_dec (S k) n) as [E|E].
  - rewrite E, Nat.Div0.mod_same, regular_vertex_at by lia.
    symmetry. apply regular_wrap.
  - rewrite Nat.mod_small by lia. apply regular_vertex_at. lia.
Qed.

Lemma regular_side i k :
  side (W i) (W (S i)) (W k)
  = 4 * (r * r) * sin h * step_sign n (Z.of_nat k - Z.of_nat i).
Proof.
  unfold W. rewrite side_vertex. unfold step_sign. fold h.
  assert (Hp := INR_n_pos n Hn).
  replace (Z.of_nat k - Z.of_nat i - 1)%Z with (Z.of_nat k - Z.of_nat (S i))%Z by lia.
  rewrite !minus_IZR, <- !INR_IZR_INZ.
  set (y := (INR k - INR (S i)) * h).
  replace (a + INR k * inc - (a + INR (S i) * inc)) with (2 * y)
    by (unfold y, inc, h; field; lra).
  replace (a + INR (S i) * inc - (a + INR i * inc)) with (2 * h)
    by (unfold inc, h; rewrite S_INR; field; lra).
  replace (a + INR k * inc - (a + INR i * inc)) with (2 * h + 2 * y)
    by (unfold y, inc, h; rewrite S_INR; field; lra).
  replace ((INR k - INR i) * h) with (h + y)
    by (unfold y; rewrite S_INR; ring).
  replace (sin (2 * y) + sin (2 * h) - sin (2 * h + 2 * y))
    with (4 * sin h * sin y * sin (h + y))
    by (rewrite <- sin_sum_identity; ring).
  ring.
Qed.

Lemma regular_scale_pos : 0 < 4 * (r * r) * sin h.
Proof.
  assert (Hh := h_pos n Hn). assert (Hnh := nh n Hn). fold h in Hh, Hnh.
  assert (Hp := INR_n_pos n Hn).
  assert (H3 : 3 <= INR n) by (apply (le_INR 3) in Hn; simpl in Hn; lra).
  assert (Hs : 0 < sin h) by (apply sin_gt_0; nra).
  assert (Hrr : 0 < r * r) by nra.
  nra.
Qed.

Lemma regular_side_nonneg i k :
  (i < n)%nat -> (k <= n)%nat -> 0 <= side (W i) (W (S i)) (W k).
Proof.
  intros Hi Hk. rewrite regular_side.
  apply Rmult_le_pos; [apply Rlt_le, regular_scale_pos|].
  apply step_sign_nonneg; [exact Hn|lia].
Qed.

Lemma regular_side_pos i k :
  (2 <= Z.of_nat k - Z.of_nat i <= Z.of_nat n - 1)%Z
  \/ (- (Z.of_nat n - 2) <= Z.of_nat k - Z.of_nat i <= -1)%Z ->
  0 < side (W i) (W (S i)) (W k).
Proof.
  intros H. rewrite regular_side.
  apply Rmult_lt_0_compat; [apply regular_scale_pos|].
  apply step_sign_pos; [exact Hn|exact H].
Qed.

(** Two different vertices are different points of the plane. *)
Lemma regular_distinct i j :
  (i < n)%nat -> (j < n)%nat -> i <> j -> ~ same_xy (W i) (W j).
Proof.
  intros Hi Hj Hij [Hx Hy].
  unfold W, vertex, aecPoint2 in Hx, Hy; simpl in Hx, Hy.
  assert (Hc : cos (a + INR i * inc) = cos (a + INR j * inc)) by nra.
  assert (Hs : sin (a + INR i * inc) = sin (a + INR j * inc)) by nra.
  assert (H0 : sin ((a + INR j * inc) - (a + INR i * inc)) = 0).
  { rewrite sin_minus, Hc, Hs. ring. }
  assert (H1 : cos ((a + INR j * inc) - (a + INR i * inc)) = 1).
  { rewrite cos_minus, Hc, Hs.
    assert (H := sin2_cos2 (a + INR j * inc)). unfold Rsqr in H. lra. }
  assert (Hp := INR_n_pos n Hn).
  set (m := (Z.of_nat j - Z.of_nat i)%Z).
  assert (Hang : a + INR j * inc - (a + INR i * inc) = 2 * (IZR m * h)).
  { unfold m, inc, h. rewrite minus_IZR, <- !INR_IZR_INZ. field. lra. }
  rewrite Hang in H0, H1. rewrite cos_2a_sin in H1.
  assert (Hz : sin (IZR m * h) = 0) by nra.
  destruct (Z_lt_le_dec 0 m) as [Hm|Hm].
  - assert (H := sin_step_pos n Hn m ltac:(lia)). fold h in H. lra.
  - assert (H := sin_step_neg n Hn m ltac:(lia)). fold h in H. lra.
Qed.

Lemma regular_next_index k :
  (k < n)%nat -> next_index l k = if Nat.eq_dec (S k) n then 0%nat else S k.
Proof.
  intros Hk. unfold next_index, l. rewrite vertices_length.
  destruct (Nat.eq_dec (S k) n) as [E|E];
    [rewrite E; apply Nat.Div0.mod_same|apply Nat.mod_small; lia].
Qed.

Lemma vertices_simple : simple l.
Proof.
  assert (Hlen : length l = n) by apply vertices_length.
  unfold simple. rewrite Hlen. split; [exact Hn|]. split.
  - intros i j Hi Hj Hij. rewrite !regular_vertex_at by assumption.
    now apply regular_distinct.
  - intros i j p Hi Hj Hij Hpi Hpj. unfold on_edge in Hpi, Hpj.
    rewrite regular_next in Hpi, Hpj by assumption.
    rewrite regular_vertex_at in Hpi, Hpj by assumption.
    rewrite !regular_vertex_at by assumption.
    rewrite !regular_next_index by assumption.
    destruct Hpi as (s & Hs & Hsx & Hsy), Hpj as (t & Ht & Htx & Hty).
    assert (Hside : (1 - t) * side (W i) (W (S i)) (W j)
                    + t * side (W i) (W (S i)) (W (S j)) = 0).
    { transitivity (side (W i) (W (S i)) p).
      - unfold side. rewrite Htx, Hty. ring.
      - unfold side. rewrite Hsx, Hsy. ring. }
    assert (Hj0 := regular_side_nonneg i j Hi ltac:(lia)).
    assert (Hj1 := regular_side_nonneg i (S j) Hi ltac:(lia)).
    unfold same_xy.
    destruct (Nat.eq_dec (S i) n) as [Ei|Ei], (Nat.eq_dec (S j) n) as [Ej|Ej];
      try lia.
    + (* edge i closes the loop *)
      destruct (Nat.eq_dec j 0) as [Ej0|Ej0].
      * left. split; [exact Ej0|].
        assert (Hpos := regular_side_pos i (S j) ltac:(lia)).
        assert (t = 0) by nra. subst t. lra.
      * destruct (Nat.eq_dec i (S j)) as [Eij|Eij].
        -- right. split; [exact Eij|].
           assert (Hpos := regular_side_pos i j ltac:(lia)).
           assert (t = 1) by nra. subst t. rewrite <- Eij in Htx, Hty. lra.
        -- exfalso.
           assert (Hp0 := regular_side_pos i j ltac:(lia)).
           assert (Hp1 := regular_side_pos i (S j) ltac:(lia)). nra.
    + (* edge j closes the loop *)
      destruct (Nat.eq_dec i 0) as [Ei0|Ei0].
      * right. split; [exact Ei0|].
        assert (Hpos := regular_side_pos i j ltac:(lia)).
        assert (t = 1) by nra. subst t.
        rewrite Ej, regular_wrap, <- Ei0 in Htx, Hty. lra.
      * destruct (Nat.eq_dec j (S i)) as [Eji|Eji].
        -- left. split; [exact Eji|].
           assert (Hpos := regular_side_pos i (S j) ltac:(lia)).
           assert (t = 0) by nra. subst t. lra.
        -- exfalso.
           assert (Hp0 := regular_side_pos i j ltac:(lia)).
           assert (Hp1 := regular_side_pos i (S j) ltac:(lia)). nra.
    + destruct (Nat.eq_dec j (S i)) as [Eji|Eji].
      * left. split; [exact Eji|].
        assert (Hpos := regular_side_pos i (S j) ltac:(lia)).
        assert (t = 0) by nra. subst t. lra.
      * destruct (Nat.eq_dec i (S j)) as [Eij|Eij].
        -- right. split; [exact Eij|].
           assert (Hpos := regular_side_pos i j ltac:(lia)).
           assert (t = 1) by nra. subst t. rewrite <- Eij in Htx, Hty. lra.
        -- exfalso.
           assert (Hp0 := regular_side_pos i j ltac:(lia)).
           assert (Hp1 := regular_side_pos i (S j) ltac:(lia)). nra.
Qed.

Lemma vertices_open : open_loop l.
Proof.
  apply open_loop_intro.
  - unfold l. rewrite vertices_length. lia.
  - unfold l at 2. rewrite vertices_length, !regular_vertex_at by lia.
    apply regular_distinct; lia.
Qed.

End RegularPolygon.

(** A rectangle with positive sides is a simple loop. *)
Lemma box_points_simple x y xs ys :
  0 < xs -> 0 < ys -> simple (box_points x y xs ys).
Proof.
  intros Hx Hy. unfold simple. cbn [box_points length].
  split; [lia|]. split.
  - intros i j Hi Hj Hij [H1 H2].
    destruct i as [|[|[|[|i]]]]; try lia;
      destruct j as [|[|[|[|j]]]]; try lia;
      cbn in H1, H2; lra.
  - intros i j p Hi Hj Hij (t & Ht & Htx & Hty) (u & Hu & Hux & Huy).
    unfold next_index, same_xy. cbn [box_points length].
    destruct i as [|[|[|[|i]]]]; try lia;
      destruct j as [|[|[|[|j]]]]; try lia;
      cbn in Htx, Hty, Hux, Huy |- *;
      first [ exfalso; nra
            | left; split; [reflexivity | split; nra]
            | right; split; [reflexivity | split; nra] ].
Qed.

Lemma box_points_open x y xs ys : 0 < ys -> open_loop (box_points x y xs ys).
Proof. intros Hy H. cbn in H. injection H as H. lra. Qed.

Lemma box_points_area x y xs ys : signed_area (box_points x y xs ys) = xs * ys.
Proof. unfold signed_area, shoelace, shoelace_from, cross. cbn. field. Qed.

Lemma makeBox_box_points origin xs ys :
  makeBox origin xs ys = Loop (box_points (px origin) (py origin) xs ys).
Proof. reflexivity. Qed.

(** *** The union engine and the composite builders *)

Section EngineFacts.

Context {lib : Shapely}.

(** Whatever [__add] returns, it has recorded its own call first. *)
Lemma add_trace_head pointSet :
  exists rest, trace (__add pointSet) = EvUnion pointSet :: rest.
Proof.
  unfold __add, trace, bind, tell, ret.
  destruct (add_try pointSet); simpl; eexists; reflexivity.
Qed.

(** A loop returned by [__add] is the exterior ring of the polygon the
    library's union produced, without its last coordinate. *)
Lemma add_returns_exterior pointSet pts :
  result (__add pointSet) = Loop pts ->
  exists boundaries mp exterior interiors,
    add_boundaries pointSet = Some boundaries /\
    shapely_MultiPolygon boundaries = Some mp /\
    shapely_unary_union mp = Some (Polygon exterior interiors) /\
    pts = map (fun pnt => aecPoint2 (fst pnt) (snd pnt)) (removelast exterior).
Proof.
  unfold __add, result, bind, tell, ret, add_try, obind.
  destruct (add_boundaries pointSet) as [bs|]; simpl; [|discriminate].
  destruct (shapely_MultiPolygon bs) as [mp|] eqn:Hmp; simpl; [|discriminate].
  destruct (shapely_unary_union mp) as [[ext ints|parts|]|] eqn:Hu; simpl;
    try discriminate.
  intros [= <-]. exists bs, mp, ext, ints. repeat split; assumption.
Qed.

(** C2: for every list of candidate loops whose union, as the geometry
    library computes it, is not a single polygon (a multi-part geometry,
    another kind of geometry, or no result at all), the union engine
    returns the failure value None; it never returns a multi-part
    result. *)
Theorem add_fails_unless_single_polygon (pointSet : list pyret) :
  (forall boundaries mp exterior interiors,
      add_boundaries pointSet = Some boundaries ->
      shapely_MultiPolygon boundaries = Some mp ->
      shapely_unary_union mp <> Some (Polygon exterior interiors)) ->
  result (__add pointSet) = PyNone.
Proof.
  intros Hnot.
  unfold __add, result, bind, tell, ret, add_try, obind.
  destruct (add_boundaries pointSet) as [bs|] eqn:Hbs; simpl; [|reflexivity].
  destruct (shapely_MultiPolygon bs) as [mp|] eqn:Hmp; simpl; [|reflexivity].
  destruct (shapely_unary_union mp) as [[ext ints|parts|]|] eqn:Hu; simpl;
    try reflexivity.
  exfalso. exact (Hnot bs mp ext ints eq_refl Hmp Hu).
Qed.

Lemma or_default_truthy r d : r <> 0 -> or_default (Some r) d = r.
Proof.
  intros Hr. unfold or_default, falsy.
  destruct (Req_dec_T r 0); [contradiction|reflexivity].
Qed.

Lemma or_default_reaches v bound d :
  reaches v bound -> d >= bound \/ bound > 0 -> or_default v d >= bound.
Proof.
  intros (w & -> & Hw) Hd. unfold or_default, falsy.
  destruct (Req_dec_T w 0) as [->|_]; [|exact Hw].
  destruct Hd; lra.
Qed.

(** C5: for every composite builder call in which a width or depth
    reaches or exceeds its bound (makeL and makeT: xWidth >= xSize or
    yDepth >= ySize; makeH and makeU: xWidth1 >= 0.5*xSize or
    xWidth2 >= 0.5*xSize or yDepth >= ySize), be it the value supplied by
    the caller or the value the builder works with after the defaults,
    the builder returns None and nothing happens on the way: the union
    engine is not invoked. *)
Theorem builders_validate_before_union
    (origin : aecPoint) (xSize ySize : R)
    (xWidth yDepth xWidth1 xWidth2 : option R) :
  (reaches xWidth xSize \/ reaches yDepth ySize
   \/ or_default xWidth (xSize * 0.5) >= xSize
   \/ or_default yDepth (ySize * 0.5) >= ySize ->
     makeL origin xSize ySize xWidth yDepth = (PyNone, []) /\
     makeT origin xSize ySize xWidth yDepth = (PyNone, []) /\
     union_invoked (makeL origin xSize ySize xWidth yDepth) = false /\
     union_invoked (makeT origin xSize ySize xWidth yDepth) = false)
  /\
  (reaches xWidth1 (xSize * 0.5) \/ reaches xWidth2 (xSize * 0.5)
   \/ reaches yDepth ySize
   \/ or_default xWidth1 (xSize * 0.3) >= xSize * 0.5
   \/ or_default xWidth2 (xSize * 0.3) >= xSize * 0.5
   \/ or_default yDepth (ySize * 0.3) >= ySize ->
     makeH origin xSize ySize xWidth1 xWidth2 yDepth = (PyNone, []) /\
     makeU origin xSize ySize xWidth1 xWidth2 yDepth = (PyNone, []) /\
     union_invoked (makeH origin xSize ySize xWidth1 xWidth2 yDepth) = false /\
     union_invoked (makeU origin xSize ySize xWidth1 xWidth2 yDepth) = false).
Proof.
  assert (Hhalf : forall x, x * 0.5 >= x \/ x > 0)
    by (intros x; destruct (Rlt_le_dec 0 x); [right|left]; lra).
  assert (Hthird : forall x, x * 0.3 >= x * 0.5 \/ x * 0.5 > 0)
    by (intros x; destruct (Rlt_le_dec 0 x); [right|left]; lra).
  assert (Hdepth : forall x, x * 0.3 >= x \/ x > 0)
    by (intros x; destruct (Rlt_le_dec 0 x); [right|left]; lra).
  split.
  - intros H.
    assert (Hchk : or_default xWidth (xSize * 0.5) >= xSize
                   \/ or_default yDepth (ySize * 0.5) >= ySize).
    { destruct H as [H|[H|[H|H]]];
        [left|right|left; exact H|right; exact H];
        apply or_default_reaches; auto. }
    unfold makeL, makeT, union_invoked, ret.
    destruct (Rge_dec (or_default xWidth (xSize * 0.5)) xSize);
      [repeat split; reflexivity|].
    destruct (Rge_dec (or_default yDepth (ySize * 0.5)) ySize);
      [repeat split; reflexivity|].
    exfalso. tauto.
  - intros H.
    assert (Hchk : or_default xWidth1 (xSize * 0.3) >= xSize * 0.5
                   \/ or_default xWidth2 (xSize * 0.3) >= xSize * 0.5
                   \/ or_default yDepth (ySize * 0.3) >= ySize).
    { destruct H as [H|[H|[H|H]]]; [left|right; left|right; right|exact H];
        apply or_default_reaches; auto. }
    unfold makeH, makeU, union_invoked, ret.
    destruct (Rge_dec (or_default xWidth1 (xSize * 0.3)) (xSize * 0.5));
      [repeat split; reflexivity|].
    destruct (Rge_dec (or_default xWidth2 (xSize * 0.3)) (xSize * 0.5));
      [repeat split; reflexivity|].
    destruct (Rge_dec (or_default yDepth (ySize * 0.3)) ySize);
      [repeat split; reflexivity|].
    exfalso. tauto.
Qed.

Lemma width_used_or_default dflt v w :
  width_used dflt v w -> or_default v dflt = w.
Proof.
  intros [| |r Hr]; unfold or_default, falsy.
  - reflexivity.
  - destruct (Req_dec_T 0 0); [reflexivity|contradiction].
  - destruct (Req_dec_T r 0); [contradiction|reflexivity].
Qed.

Lemma width_used_total dflt v : exists w, width_used dflt v w.
Proof.
  destruct v as [r|]; [|eexists; constructor].
  destruct (Req_dec_T r 0) as [->|Hr]; eexists; [apply used_zero|].
  apply used_supplied, Hr.
Qed.

(** C6 (amended): in every composite builder, a width or depth argument
    that is missing or zero is replaced by its default fraction of the
    overall extent before any validation or construction, and every other
    value, a negative one included, is used as supplied: with [w], [d],
    [w1], [w2], [d3] the widths and depths so determined, each builder
    validates these values and builds its rectangles from them. *)
Theorem builders_default_falsy_arguments
    (origin : aecPoint) (xSize ySize : R)
    (xWidth yDepth xWidth1 xWidth2 : option R) (xAxis yAxis : R)
    (w d w1 w2 d3 : R) :
  width_used (xSize * 0.5) xWidth w ->
  width_used (ySize * 0.5) yDepth d ->
  width_used (xSize * 0.3) xWidth1 w1 ->
  width_used (xSize * 0.3) xWidth2 w2 ->
  width_used (ySize * 0.3) yDepth d3 ->
  makeCross origin xSize ySize xWidth yDepth xAxis yAxis
  = __add [ makeBox (aecPoint2 (px origin + ((yAxis * xSize) - (w * 0.5)))
                               (py origin)) w ySize;
            makeBox (aecPoint2 (px origin)
                               (py origin + ((xAxis * ySize) - (d * 0.5))))
                    xSize d ]
  /\ makeL origin xSize ySize xWidth yDepth
     = (if Rge_dec w xSize then ret PyNone else
        if Rge_dec d ySize then ret PyNone else
        __add [makeBox origin w ySize; makeBox origin xSize d])
  /\ makeT origin xSize ySize xWidth yDepth
     = (if Rge_dec w xSize then ret PyNone else
        if Rge_dec d ySize then ret PyNone else
        __add [ makeBox (aecPoint2 (px origin) (py origin + (ySize - d)))
                        xSize d;
                makeBox (aecPoint2 (px origin + ((xSize * 0.5) - (w * 0.5)))
                                   (py origin)) w ySize ])
  /\ makeH origin xSize ySize xWidth1 xWidth2 yDepth
     = (if Rge_dec w1 (xSize * 0.5) then ret PyNone else
        if Rge_dec w2 (xSize * 0.5) then ret PyNone else
        if Rge_dec d3 ySize then ret PyNone else
        __add [ makeBox origin w1 ySize;
                makeBox (aecPoint2 (px origin + (xSize - w2)) (py origin))
                        w2 ySize;
                makeBox (aecPoint2 (px origin)
                                   (py origin + ((ySize * 0.5) - (d3 * 0.5))))
                        xSize d3 ])
  /\ makeU origin xSize ySize xWidth1 xWidth2 yDepth
     = (if Rge_dec w1 (xSize * 0.5) then ret PyNone else
        if Rge_dec w2 (xSize * 0.5) then ret PyNone else
        if Rge_dec d3 ySize then ret PyNone else
        pointsL <- makeL origin xSize ySize (Some w1) (Some d3) ;;
        __add [ pointsL;
                makeBox (aecPoint2 (px origin + (xSize - w2)) (py origin))
                        w2 ySize ])
  /\ (forall dflt r, r < 0 -> width_used dflt (Some r) r)
  /\ (forall dflt v, exists u, width_used dflt v u).
Proof.
  intros Hw Hd Hw1 Hw2 Hd3.
  apply width_used_or_default in Hw, Hd, Hw1, Hw2, Hd3.
  unfold makeCross, makeL, makeT, makeH, makeU.
  rewrite Hw, Hd, Hw1, Hw2, Hd3.
  do 5 (split; [reflexivity|]). split.
  - intros dflt r Hr. apply used_supplied. lra.
  - apply width_used_total.
Qed.

Lemma result_bind {A B : Type} (c : M A) (k : A -> M B) :
  result (bind c k) = result (k (result c)).
Proof.
  unfold result, bind. destruct c as [x t1]. simpl.
  destruct (k x); reflexivity.
Qed.

(** What [makeCross] hands to the union engine: the vertical arm and the
    horizontal arm. *)
Lemma makeCross_arms origin xSize ySize xWidth yDepth xAxis yAxis :
  makeCross origin xSize ySize xWidth yDepth xAxis yAxis
  = __add
      [ makeBox (aecPoint2 (px origin
                            + (yAxis * xSize
                               - or_default xWidth (xSize * 0.5) * 0.5))
                           (py origin))
                (or_default xWidth (xSize * 0.5)) ySize;
        makeBox (aecPoint2 (px origin)
                           (py origin
                            + (xAxis * ySize
                               - or_default yDepth (ySize * 0.5) * 0.5)))
                xSize (or_default yDepth (ySize * 0.5)) ].
Proof. reflexivity. Qed.

(** The area enclosed by the outline of a cross is the sum of the areas
    of the two arms minus the area of their overlap. *)
Lemma cross_outline_area x0 x1 x2 x3 y0 y1 y2 y3 :
  signed_area (cross_outline x0 x1 x2 x3 y0 y1 y2 y3)
  = (x2 - x1) * (y3 - y0) + (x3 - x0) * (y2 - y1) - (x2 - x1) * (y2 - y1).
Proof. unfold signed_area, shoelace, shoelace_from, cross. cbn. field. Qed.

(** The arms of makeCross(origin, 10, 10) with the default widths, and
    the loop that comes back when the library's union of these two arms
    is the polygon bounded by their outline: twelve vertices enclosing
    5*10 + 10*5 - 5*5 = 75. *)
Lemma makeCross_default_outline (origin : aecPoint) :
  let x := px origin in
  let y := py origin in
  let outline :=
    cross_outline x (x + 2.5) (x + 7.5) (x + 10) y (y + 2.5) (y + 7.5) (y + 10) in
  makeCross origin 10 10 None None 0.5 0.5
  = __add [ makeBox (aecPoint2 (x + (0.5 * 10 - 10 * 0.5 * 0.5)) y) (10 * 0.5) 10;
            makeBox (aecPoint2 x (y + (0.5 * 10 - 10 * 0.5 * 0.5))) 10 (10 * 0.5) ]
  /\ (add_try [ makeBox (aecPoint2 (x + (0.5 * 10 - 10 * 0.5 * 0.5)) y) (10 * 0.5) 10;
                makeBox (aecPoint2 x (y + (0.5 * 10 - 10 * 0.5 * 0.5))) 10 (10 * 0.5) ]
       = Some (Loop outline) ->
       result (makeCross origin 10 10 None None 0.5 0.5) = Loop outline
       /\ length outline = 12%nat
       /\ signed_area outline = 5 * 10 + 10 * 5 - 5 * 5).
Proof.
  intros x y outline. split; [reflexivity|].
  intros Hadd. split; [|split].
  - rewrite makeCross_arms. unfold or_default. cbn [falsy]. fold x y.
    unfold __add, result, bind, tell, ret. rewrite Hadd. reflexivity.
  - reflexivity.
  - unfold outline. rewrite cross_outline_area. lra.
Qed.

End EngineFacts.

(** *** From a valid ring to the loop that [__add] returns *)

Lemma last_nth_any {A : Type} (l : list A) (d : A) :
  last l d = nth (length l - 1) l d.
Proof.
  induction l as [|a tl IH]; [reflexivity|].
  destruct tl as [|b tl]; [reflexivity|].
  change (last (a :: b :: tl) d) with (last (b :: tl) d).
  rewrite IH. cbn [length]. rewrite !Nat.sub_succ, !Nat.sub_0_r. reflexivity.
Qed.

Lemma removelast_length {A : Type} (l : list A) :
  length (removelast l) = (length l - 1)%nat.
Proof.
  induction l as [|a tl IH]; [reflexivity|].
  destruct tl as [|b tl]; [reflexivity|].
  change (removelast (a :: b :: tl)) with (a :: removelast (b :: tl)).
  cbn [length] in *. rewrite IH. lia.
Qed.

Lemma removelast_nth {A : Type} (l : list A) (d : A) (i : nat) :
  (i < length l - 1)%nat -> nth i (removelast l) d = nth i l d.
Proof.
  intros Hi. assert (Hne : l <> []) by (intros ->; simpl in Hi; lia).
  rewrite (app_removelast_last d Hne) at 2.
  rewrite app_nth1; [reflexivity|]. now rewrite removelast_length.
Qed.

Lemma ring_loop_length exterior :
  length (ring_loop exterior) = (length exterior - 1)%nat.
Proof. unfold ring_loop. now rewrite length_map, removelast_length. Qed.

Lemma ring_loop_vertex exterior i :
  (i < length exterior - 1)%nat ->
  vertex_at (ring_loop exterior) i = ring_vertex exterior i.
Proof.
  intros Hi. unfold vertex_at, ring_loop, ring_vertex.
  change (mkPoint 0 0 0) with (ring_point (0, 0)).
  rewrite map_nth. now rewrite removelast_nth.
Qed.

Lemma ring_closed_wrap exterior :
  ring_closed exterior ->
  ring_vertex exterior (length exterior - 1) = ring_vertex exterior 0.
Proof.
  intros [Hlen Hclosed]. unfold ring_vertex.
  rewrite <- last_nth_any, Hclosed. destruct exterior; reflexivity.
Qed.

Lemma ring_loop_next exterior i :
  ring_closed exterior -> (i < length exterior - 1)%nat ->
  vertex_at (ring_loop exterior) (next_index (ring_loop exterior) i)
  = ring_vertex exterior (S i).
Proof.
  intros Hc Hi. unfold next_index. rewrite ring_loop_length.
  destruct (Nat.eq_dec (S i) (length exterior - 1)) as [E|E].
  - rewrite E, Nat.Div0.mod_same, ring_loop_vertex by lia.
    symmetry. now apply ring_closed_wrap.
  - rewrite Nat.mod_small by lia. apply ring_loop_vertex. lia.
Qed.

Lemma ring_loop_next_index exterior i :
  (i < length exterior - 1)%nat ->
  next_index (ring_loop exterior) i
  = if Nat.eq_dec (S i) (length exterior - 1) then 0%nat else S i.
Proof.
  intros Hi. unfold next_index. rewrite ring_loop_length.
  destruct (Nat.eq_dec (S i) (length exterior - 1)) as [E|E];
    [rewrite E; apply Nat.Div0.mod_same|apply Nat.mod_small; lia].
Qed.

Lemma shoelace_from_path first l :
  l <> [] -> shoelace_from first l = path_sum (l ++ [first]).
Proof.
  induction l as [|p tl IH]; [congruence|]. intros _.
  destruct tl as [|q tl].
  - cbn. ring.
  - change (shoelace_from first (p :: q :: tl))
      with (cross p q + shoelace_from first (q :: tl)).
    change (path_sum ((p :: q :: tl) ++ [first]))
      with (cross p q + path_sum ((q :: tl) ++ [first])).
    rewrite IH by discriminate. reflexivity.
Qed.

Lemma ring_loop_shoelace exterior :
  ring_closed exterior ->
  shoelace (ring_loop exterior) = path_sum (map ring_point exterior).
Proof.
  intros [Hlen Hclosed].
  assert (Hne : exterior <> []) by (intros ->; simpl in Hlen; lia).
  assert (E : map ring_point exterior
              = ring_loop exterior ++ [ring_point (hd (0, 0) exterior)]).
  { unfold ring_loop. rewrite <- Hclosed.
    change [ring_point (last exterior (0, 0))]
      with (map ring_point [last exterior (0, 0)]).
    rewrite <- map_app. f_equal. now apply app_removelast_last. }
  rewrite E. clear E Hclosed.
  destruct exterior as [|c0 [|c1 tl]]; [congruence|simpl in Hlen; lia|].
  unfold ring_loop.
  change (removelast (c0 :: c1 :: tl)) with (c0 :: removelast (c1 :: tl)).
  cbn [map hd shoelace].
  apply shoelace_from_path. discriminate.
Qed.

(** The loop made of a valid ring is counter-clockwise, simple and does
    not repeat its first point at the end. *)
Lemma valid_ring_loop exterior :
  valid_ring exterior ->
  ccw (ring_loop exterior) /\ simple (ring_loop exterior)
  /\ open_loop (ring_loop exterior).
Proof.
  intros (Hclosed & Hccw & Hdistinct & Hmeet).
  assert (Hlen : (4 <= length exterior)%nat) by apply Hclosed.
  assert (Hl := ring_loop_length exterior).
  split; [|split].
  - unfold ccw, signed_area. rewrite ring_loop_shoelace by exact Hclosed.
    exact Hccw.
  - unfold simple. rewrite Hl. split; [lia|]. split.
    + intros i j Hi Hj Hij. rewrite !ring_loop_vertex by assumption.
      now apply Hdistinct.
    + intros i j p Hi Hj Hij Hpi Hpj. unfold on_edge in Hpi, Hpj.
      rewrite ring_loop_next in Hpi, Hpj by assumption.
      rewrite ring_loop_vertex in Hpi, Hpj by assumption.
      rewrite !ring_loop_vertex by assumption.
      rewrite !ring_loop_next_index by assumption.
      destruct (Nat.lt_total i j) as [Hlt|[Heq|Hgt]]; [|contradiction|].
      * destruct (Hmeet i j p Hlt Hj Hpi Hpj) as [[E Hp]|(E1 & E2 & Hp)].
        -- left. split; [|exact Hp].
           destruct (Nat.eq_dec (S i) (length exterior - 1)); lia.
        -- right. split; [|now rewrite E1].
           destruct (Nat.eq_dec (S j) (length exterior - 1)); lia.
      * destruct (Hmeet j i p Hgt Hi Hpj Hpi) as [[E Hp]|(E1 & E2 & Hp)].
        -- right. split; [|exact Hp].
           destruct (Nat.eq_dec (S j) (length exterior - 1)); lia.
        -- left. split; [|now rewrite E1].
           destruct (Nat.eq_dec (S i) (length exterior - 1)); lia.
  - apply open_loop_intro; [lia|].
    rewrite Hl, !ring_loop_vertex by lia. apply Hdistinct; lia.
Qed.

(** *** The library instance for nested rectangles *)

Lemma Reqb_true x y : Reqb x y = true -> x = y.
Proof. unfold Reqb. destruct (Req_dec_T x y); [auto|discriminate]. Qed.

Lemma Rltb_true x y : Rltb x y = true -> x < y.
Proof. unfold Rltb. destruct (Rlt_dec x y); [auto|discriminate]. Qed.

Lemma Reqb_refl x : Reqb x x = true.
Proof. unfold Reqb. destruct (Req_dec_T x x); [reflexivity|contradiction]. Qed.

Lemma Rltb_lt x y : x < y -> Rltb x y = true.
Proof. intros H. unfold Rltb. destruct (Rlt_dec x y); [reflexivity|contradiction]. Qed.

Lemma Rleb_le x y : x <= y -> Rleb x y = true.
Proof. intros H. unfold Rleb. destruct (Rle_dec x y); [reflexivity|contradiction]. Qed.

Lemma is_box_ring_some ring x0 y0 x1 y1 :
  is_box_ring ring = Some (x0, y0, x1, y1) -> x0 < x1 /\ y0 < y1.
Proof.
  destruct ring as [|a [|b [|c [|d [|e [|f tl]]]]]]; try discriminate.
  unfold is_box_ring.
  destruct (Rltb (fst a) (fst b)) eqn:H1; cbn [andb]; [|discriminate].
  destruct (Rltb (snd a) (snd c)) eqn:H2; cbn [andb]; [|discriminate].
  match goal with |- (if ?t then _ else _) = _ -> _ => destruct t end;
    [|discriminate].
  intros [= <- <- <- <-]. split; now apply Rltb_true.
Qed.

Lemma is_box_ring_box x0 y0 x1 y1 :
  x0 < x1 -> y0 < y1 ->
  is_box_ring (box_ring x0 y0 x1 y1) = Some (x0, y0, x1, y1).
Proof.
  intros Hx Hy. unfold is_box_ring, box_ring. cbn [fst snd].
  now rewrite !Rltb_lt, !Reqb_refl by assumption.
Qed.

Lemma box_ring_valid x0 y0 x1 y1 :
  x0 < x1 -> y0 < y1 -> valid_ring (box_ring x0 y0 x1 y1).
Proof.
  intros Hx Hy. split; [|split].
  - split; [cbn; lia|reflexivity].
  - unfold ring_ccw.
    replace (path_sum (map ring_point (box_ring x0 y0 x1 y1)) / 2)
      with ((x1 - x0) * (y1 - y0))
      by (unfold box_ring, ring_point, aecPoint2; cbn; unfold cross; cbn; field).
    nra.
  - unfold ring_simple. cbn [box_ring length Nat.sub]. split.
    + intros i j Hi Hj Hij [H1 H2].
      destruct i as [|[|[|[|i]]]]; try lia;
        destruct j as [|[|[|[|j]]]]; try lia;
        cbn in H1, H2; lra.
    + intros i j p Hij Hj (t & Ht & Htx & Hty) (u & Hu & Hux & Huy).
      unfold same_xy.
      destruct i as [|[|[|[|i]]]]; try lia;
        destruct j as [|[|[|[|j]]]]; try lia;
        cbn in Htx, Hty, Hux, Huy |- *;
        first [ exfalso; nra
              | left; split; [reflexivity | split; nra]
              | right; split; [reflexivity | split; [reflexivity | split; nra]] ].
Qed.

(** Every polygon returned by the union of [nested_lib] has a valid
    exterior ring. *)
Lemma nested_lib_rings_valid :
  forall mp exterior interiors,
    shapely_unary_union (Shapely := nested_lib) mp
    = Some (Polygon exterior interiors) ->
    valid_ring exterior.
Proof.
  intros mp exterior interiors. cbn.
  destruct mp as [ext ints|[|first rest]|]; try discriminate.
  destruct (is_box_ring first) as [[[[x0 y0] x1] y1]|] eqn:Hbox; [|discriminate].
  destruct (forallb (forallb (in_bounds (x0, y0, x1, y1))) rest); [|discriminate].
  intros [= <- _]. apply is_box_ring_some in Hbox.
  now apply box_ring_valid.
Qed.

Lemma nested_candidate x y w h :
  0 < w -> 0 < h ->
  obind (shapely_Polygon (Shapely := nested_lib) (map xy (box_points x y w h)))
        (shapely_orient (Shapely := nested_lib))
  = Some (Polygon (box_ring x y (x + w) (y + h)) []).
Proof.
  intros Hw Hh. cbn.
  match goal with |- context [Rle_dec ?a ?b] => destruct (Rle_dec a b) as [_|Hn] end;
    [reflexivity|].
  exfalso. apply Hn. nra.
Qed.

(** The union engine on a rectangle and a second rectangle inside it. *)
Lemma nested_add_try x y w h x' y' w' h' :
  0 < w -> 0 < h -> 0 < w' -> 0 < h' ->
  x <= x' -> x' + w' <= x + w -> y <= y' -> y' + h' <= y + h ->
  add_try (lib := nested_lib)
    [makeBox (aecPoint2 x y) w h; makeBox (aecPoint2 x' y') w' h']
  = Some (Loop (ring_loop (box_ring x y (x + w) (y + h)))).
Proof.
  intros Hw Hh Hw' Hh' Hx Hxw Hy Hyh.
  assert (C1 := nested_candidate x y w h Hw Hh).
  assert (C2 := nested_candidate x' y' w' h' Hw' Hh').
  unfold add_try, add_boundaries.
  rewrite !makeBox_box_points. cbn [px py aecPoint2].
  unfold obind in C1, C2 |- *.
  destruct (shapely_Polygon (Shapely := nested_lib) (map xy (box_points x y w h)))
    as [g1|]; [|discriminate].
  rewrite C1.
  destruct (shapely_Polygon (Shapely := nested_lib) (map xy (box_points x' y' w' h')))
    as [g2|]; [|discriminate].
  rewrite C2. cbn [is_Polygon].
  cbn [shapely_MultiPolygon nested_lib disjoint_lib map exterior_of].
  cbn [shapely_unary_union nested_lib].
  rewrite is_box_ring_box by lra.
  assert (Hin : forallb (forallb (in_bounds (x, y, x + w, y + h)))
                  [box_ring x' y' (x' + w') (y' + h')] = true).
  { unfold box_ring, in_bounds. cbn [forallb fst snd].
    rewrite !Rleb_le by lra. reflexivity. }
  rewrite Hin. reflexivity.
Qed.

Section EngineRingFacts.

Context {lib : Shapely}.

Lemma add_returns_union_ring pointSet : returns_union_ring (__add pointSet).
Proof.
  intros l Hl. destruct (add_returns_exterior _ _ Hl)
    as (bs & mp & ext & ints & Hbs & Hmp & Hu & ->).
  exists pointSet, ext. split; [|split].
  - destruct (add_trace_head pointSet) as [rest ->]. now left.
  - now exists bs, mp, ints.
  - reflexivity.
Qed.

Lemma ret_None_returns_union_ring : returns_union_ring (ret PyNone).
Proof. intros l Hl. discriminate Hl. Qed.

Lemma trace_bind {A B : Type} (c : M A) (k : A -> M B) :
  trace (bind c k) = trace c ++ trace (k (result c)).
Proof.
  unfold trace, result, bind. destruct c as [x t1]. cbn [fst snd].
  destruct (k x); reflexivity.
Qed.

Lemma bind_add_returns_union_ring {A : Type} (c : M A) (k : A -> list pyret) :
  returns_union_ring (x <- c ;; __add (k x)).
Proof.
  intros l Hl. rewrite result_bind in Hl.
  destruct (add_returns_union_ring _ l Hl) as (ps & ext & Hin & Hring & ->).
  exists ps, ext. split; [|split; [exact Hring|reflexivity]].
  rewrite trace_bind. apply in_or_app. now right.
Qed.

Ltac ring_validated :=
  repeat match goal with
         | |- context [Rge_dec ?x ?y] =>
             destruct (Rge_dec x y); [apply ret_None_returns_union_ring|]
         end.

(** A loop returned by a composite builder is the loop of the ring that
    the library's union returned for the candidates the builder handed
    to [__add]. *)
Lemma composites_return_union_ring
    (origin : aecPoint) (xSize ySize : R) (a b c : option R)
    (xAxis yAxis : R) :
  returns_union_ring (makeCross origin xSize ySize a b xAxis yAxis)
  /\ returns_union_ring (makeH origin xSize ySize a b c)
  /\ returns_union_ring (makeL origin xSize ySize a b)
  /\ returns_union_ring (makeT origin xSize ySize a b)
  /\ returns_union_ring (makeU origin xSize ySize a b c).
Proof.
  unfold makeCross, makeH, makeL, makeT, makeU.
  repeat split.
  - apply add_returns_union_ring.
  - ring_validated. apply add_returns_union_ring.
  - ring_validated. apply add_returns_union_ring.
  - ring_validated. apply add_returns_union_ring.
  - ring_validated.
    match goal with
    | |- returns_union_ring (bind ?c (fun pointsL => __add [pointsL; ?bar])) =>
        apply (bind_add_returns_union_ring c (fun pointsL => [pointsL; bar]))
    end.
Qed.

Lemma returns_union_ring_valid (c : M pyret) (l : list aecPoint) :
  library_rings_valid -> returns_union_ring c -> result c = Loop l ->
  ccw l /\ simple l /\ open_loop l.
Proof.
  intros Hlib Hc Hl.
  destruct (Hc l Hl) as (ps & ext & _ & (bs & mp & ints & _ & _ & Hu) & ->).
  apply valid_ring_loop. eapply Hlib, Hu.
Qed.


End EngineRingFacts.

Lemma nested_makeCross :
  result (makeCross (lib := nested_lib) (aecPoint2 0 0) 10 10
            (Some 20) (Some 5) 0.5 0.5)
  = Loop (ring_loop (box_ring (-5) 0 15 10)).
Proof.
  rewrite makeCross_arms, !or_default_truthy by lra. cbn [px py aecPoint2].
  unfold __add, result, bind, tell, ret.
  rewrite nested_add_try by lra. cbn [fst].
  f_equal. f_equal. unfold box_ring.
  repeat (apply (f_equal2 cons); [apply f_equal2; lra|]). reflexivity.
Qed.



Lemma add_fails_unless_single_polygon_witness :
  result (__add (lib := disjoint_lib)
            [makeBox (aecPoint2 0 0) 1 1; makeBox (aecPoint2 5 5) 1 1])
  = PyNone.
Proof.
  apply add_fails_unless_single_polygon.
  intros bs mp ext ints Hbs Hmp.
  cbn in Hbs. injection Hbs as <-.
  cbn in Hmp. injection Hmp as <-.
  cbn. discriminate.
Defined.

Lemma builders_validate_before_union_witness :
  makeL (lib := disjoint_lib) (aecPoint2 0 0) 10 10 (Some 10) None = (PyNone, [])
  /\ makeH (lib := disjoint_lib) (aecPoint2 0 0) 10 10 (Some 5) None None
     = (PyNone, []).
Proof.
  destruct (builders_validate_before_union (lib := disjoint_lib)
              (aecPoint2 0 0) 10 10 (Some 10) None (Some 5) None)
    as [HL HH].
  split.
  - apply HL. left. exists 10. split; [reflexivity|lra].
  - apply HH. left. exists 5. split; [reflexivity|lra].
Defined.

Lemma builders_default_falsy_arguments_witness :
  makeL (lib := disjoint_lib) (aecPoint2 0 0) 10 10 (Some (-2)) None
  = (if Rge_dec (-2) 10 then ret PyNone else
     if Rge_dec (10 * 0.5) 10 then ret PyNone else
     __add (lib := disjoint_lib)
       [makeBox (aecPoint2 0 0) (-2) 10; makeBox (aecPoint2 0 0) 10 (10 * 0.5)]).
Proof.
  apply (builders_default_falsy_arguments (lib := disjoint_lib)
           (aecPoint2 0 0) 10 10 (Some (-2)) None None (Some 0) 0.5 0.5
           (-2) (10 * 0.5) (10 * 0.3) (10 * 0.3) (10 * 0.3)).
  - apply used_supplied. lra.
  - apply used_missing.
  - apply used_missing.
  - apply used_zero.
  - apply used_missing.
Defined.

(** C6 (as stated) fails for a negative width: makeL with xWidth = -2
    hands the union engine an arm of width -2, not one of the default
    width 10 * 0.5.  The call of the engine is recorded before the
    geometry library is consulted, so the library at hand plays no role
    in the difference. *)
Lemma negative_width_counterexample :
  -2 <= 0 /\
  (exists rest,
      trace (makeL (lib := disjoint_lib) (aecPoint2 0 0) 10 10 (Some (-2)) (Some 5))
      = EvUnion [makeBox (aecPoint2 0 0) (-2) 10; makeBox (aecPoint2 0 0) 10 5]
        :: rest) /\
  makeL (lib := disjoint_lib) (aecPoint2 0 0) 10 10 (Some (-2)) (Some 5)
  <> makeL (lib := disjoint_lib) (aecPoint2 0 0) 10 10 (Some (10 * 0.5)) (Some 5).
Proof.
  assert (E1 : makeL (lib := disjoint_lib) (aecPoint2 0 0) 10 10 (Some (-2)) (Some 5)
               = __add [makeBox (aecPoint2 0 0) (-2) 10; makeBox (aecPoint2 0 0) 10 5]).
  { unfold makeL. rewrite !or_default_truthy by lra.
    destruct (Rge_dec (-2) 10); [lra|]. destruct (Rge_dec 5 10); [lra|].
    reflexivity. }
  assert (E2 : makeL (lib := disjoint_lib) (aecPoint2 0 0) 10 10 (Some (10 * 0.5)) (Some 5)
               = __add [makeBox (aecPoint2 0 0) (10 * 0.5) 10; makeBox (aecPoint2 0 0) 10 5]).
  { unfold makeL. rewrite !or_default_truthy by lra.
    destruct (Rge_dec (10 * 0.5) 10); [lra|]. destruct (Rge_dec 5 10); [lra|].
    reflexivity. }
  split; [lra|]. split.
  - rewrite E1. apply add_trace_head.
  - rewrite E1, E2. intros Heq.
    destruct (add_trace_head (lib := disjoint_lib)
                [makeBox (aecPoint2 0 0) (-2) 10; makeBox (aecPoint2 0 0) 10 5])
      as [r1 H1].
    destruct (add_trace_head (lib := disjoint_lib)
                [makeBox (aecPoint2 0 0) (10 * 0.5) 10; makeBox (aecPoint2 0 0) 10 5])
      as [r2 H2].
    rewrite Heq, H2 in H1.
    apply (f_equal (fun t => match t with
                             | EvUnion (Loop (_ :: q :: _) :: _) :: _ => px q
                             | _ => 0
                             end)) in H1.
    simpl in H1. lra.
Qed.


(** ** Further properties of the generators *)

(** *** makeBox *)

(** X1: for all sizes, of either sign, makeBox returns four points whose
    signed area is xSize*ySize: the loop is counter-clockwise exactly
    when the two sizes have the same sign and neither is zero. *)
Theorem makeBox_orientation (origin : aecPoint) (xSize ySize : R) :
  exists l, makeBox origin xSize ySize = Loop l
            /\ length l = 4%nat
            /\ signed_area l = xSize * ySize
            /\ (ccw l <-> 0 < xSize * ySize)
            /\ (signed_area l = 0 <-> xSize = 0 \/ ySize = 0).
Proof.
  rewrite makeBox_box_points. eexists. split; [reflexivity|].
  split; [reflexivity|]. split; [apply box_points_area|].
  unfold ccw. rewrite box_points_area. split; [tauto|].
  split; [apply Rmult_integral|]. intros [-> | ->]; ring.
Qed.

(** *** Position of the origin *)

Lemma aecPoint2_eq x y x' y' : x = x' -> y = y' -> aecPoint2 x y = aecPoint2 x' y'.
Proof. now intros -> ->. Qed.

Lemma vertices_translate origin r inc dx dy n :
  forall a,
    vertices (translate dx dy origin) r inc n a
    = map (translate dx dy) (vertices origin r inc n a).
Proof.
  induction n as [|k IH]; intros a; [reflexivity|].
  cbn [vertices map]. rewrite IH. f_equal.
  unfold vertex, translate, aecPoint2; cbn [px py]. f_equal; ring.
Qed.

Lemma makePolygon_zero origin r s : r = 0 -> makePolygon origin r s = PyFalse.
Proof.
  intros ->. unfold makePolygon. rewrite Rabs_R0.
  destruct (Req_dec_T 0 0) as [_|H]; [reflexivity|now elim H].
Qed.

(** X2: moving the origin by (dx, dy) moves every point of the loops of
    makeBox, makePolygon and makeCylinder by (dx, dy) and changes nothing
    else. *)
Theorem primitives_translate (origin : aecPoint) (dx dy xSize ySize r s : R) :
  makeBox (translate dx dy origin) xSize ySize
  = map_loop (translate dx dy) (makeBox origin xSize ySize)
  /\ makePolygon (translate dx dy origin) r s
     = map_loop (translate dx dy) (makePolygon origin r s)
  /\ makeCylinder (translate dx dy origin) r
     = map_loop (translate dx dy) (makeCylinder origin r).
Proof.
  assert (Hpoly : forall s',
            makePolygon (translate dx dy origin) r s'
            = map_loop (translate dx dy) (makePolygon origin r s')).
  { intros s'. destruct (Req_dec_T r 0) as [Hr|Hr].
    - rewrite !makePolygon_zero by exact Hr. reflexivity.
    - rewrite !makePolygon_eq by exact Hr. cbn [map_loop].
      now rewrite vertices_translate. }
  split; [|split; [apply Hpoly|apply Hpoly]].
  unfold makeBox, map_loop, translate; cbn [map px py aecPoint2].
  f_equal. repeat (apply (f_equal2 cons); [apply aecPoint2_eq; ring|]).
  reflexivity.
Qed.

Lemma vertices_flat origin r inc n :
  forall a, Forall (fun p => pz p = 0) (vertices origin r inc n a).
Proof.
  induction n as [|k IH]; intros a; cbn [vertices]; constructor;
    [reflexivity|apply IH].
Qed.

Lemma vertices_origin_xy o o' r inc n :
  px o = px o' -> py o = py o' ->
  forall a, vertices o r inc n a = vertices o' r inc n a.
Proof.
  intros Hx Hy. induction n as [|k IH]; intros a; [reflexivity|].
  cbn [vertices]. rewrite IH. unfold vertex. now rewrite Hx, Hy.
Qed.

Lemma makePolygon_origin_xy o o' r s :
  px o = px o' -> py o = py o' -> makePolygon o r s = makePolygon o' r s.
Proof.
  intros Hx Hy. destruct (Req_dec_T r 0) as [Hr|Hr].
  - now rewrite !makePolygon_zero.
  - rewrite !makePolygon_eq by exact Hr.
    now rewrite (vertices_origin_xy o o').
Qed.

(** *** The regular polygon *)

Lemma vertices_on_circle origin r inc n :
  forall a,
    Forall (fun p => dist2 p origin = r * r
                     /\ px origin - Rabs r <= px p <= px origin + Rabs r
                     /\ py origin - Rabs r <= py p <= py origin + Rabs r)
           (vertices origin r inc n a).
Proof.
  induction n as [|k IH]; intros a; cbn [vertices]; constructor; [|apply IH].
  unfold dist2, vertex, aecPoint2; cbn [px py].
  assert (H := sin2_cos2 a). unfold Rsqr in H.
  assert (Hc := COS_bound a). assert (Hs := SIN_bound a).
  assert (Hrc : - Rabs r <= r * cos a <= Rabs r)
    by (unfold Rabs; destruct (Rcase_abs r); nra).
  assert (Hrs : - Rabs r <= r * sin a <= Rabs r)
    by (unfold Rabs; destruct (Rcase_abs r); nra).
  split; [|split; lra].
  replace ((px origin + r * cos a - px origin) * (px origin + r * cos a - px origin)
           + (py origin + r * sin a - py origin) * (py origin + r * sin a - py origin))
    with (r * r * (sin a * sin a + cos a * cos a)) by ring.
  rewrite H. ring.
Qed.

(** X3: in exact arithmetic, every point returned by makePolygon lies on
    the circle of radius |r| around the origin, hence in the square of
    half-width |r| around it; the value False is returned exactly for the
    radius 0, and None is never returned. *)
Theorem makePolygon_on_circle (origin : aecPoint) (r s : R) :
  match makePolygon origin r s with
  | Loop l =>
      r <> 0
      /\ Forall (fun p => dist2 p origin = r * r
                          /\ px origin - Rabs r <= px p <= px origin + Rabs r
                          /\ py origin - Rabs r <= py p <= py origin + Rabs r) l
  | PyFalse => r = 0
  | PyNone => False
  end.
Proof.
  destruct (Req_dec_T r 0) as [Hr|Hr].
  - rewrite makePolygon_zero by exact Hr. exact Hr.
  - rewrite makePolygon_eq by exact Hr. split; [exact Hr|].
    eapply Forall_impl; [|apply vertices_on_circle].
    cbn beta. intros p (Hd & Hx & Hy).
    rewrite Rabs_Rabsolu in Hx, Hy.
    split; [|split; assumption].
    rewrite Hd. unfold Rabs. destruct (Rcase_abs r); ring.
Qed.

(** X4: in exact arithmetic, the first vertex of makePolygon is the topmost
    point of the loop: it is (origin.x, origin.y + |r|), and no vertex has
    a larger y. *)
Theorem makePolygon_first_vertex_top (origin : aecPoint) (r s : R) :
  r <> 0 ->
  exists first rest,
    makePolygon origin r s = Loop (first :: rest)
    /\ first = aecPoint2 (px origin) (py origin + Rabs r)
    /\ Forall (fun p => py p <= py first) (first :: rest).
Proof.
  intros Hr. rewrite makePolygon_eq by exact Hr.
  destruct (Z.to_nat (Z.max 3 (Int_part (Rabs s)))) as [|m] eqn:Hn; [lia|].
  assert (Hfirst : vertex origin (Rabs r) (PI * 0.5)
                   = aecPoint2 (px origin) (py origin + Rabs r)).
  { unfold vertex. replace (PI * 0.5) with (PI / 2) by lra.
    rewrite cos_PI2, sin_PI2. f_equal; ring. }
  cbn [vertices]. rewrite Hfirst.
  eexists _, _. split; [reflexivity|]. split; [reflexivity|].
  rewrite <- Hfirst.
  change (vertex origin (Rabs r) (PI * 0.5)
          :: vertices origin (Rabs r)
               (PI * 2 / IZR (Z.max 3 (Int_part (Rabs s)))) m
               (PI * 0.5 + PI * 2 / IZR (Z.max 3 (Int_part (Rabs s)))))
    with (vertices origin (Rabs r)
            (PI * 2 / IZR (Z.max 3 (Int_part (Rabs s)))) (S m) (PI * 0.5)).
  rewrite Hfirst. cbn [py aecPoint2].
  eapply Forall_impl; [|apply vertices_on_circle].
  cbn beta. intros p (_ & _ & Hy). rewrite Rabs_Rabsolu in Hy. lra.
Qed.

Lemma makePolygon_first_vertex_top_witness :
  exists first rest,
    makePolygon (aecPoint2 1 1) (-2) 5 = Loop (first :: rest)
    /\ first = aecPoint2 1 (1 + Rabs (-2)).
Proof.
  destruct (makePolygon_first_vertex_top (aecPoint2 1 1) (-2) 5)
    as (first & rest & H1 & H2 & _); [lra|].
  exists first, rest. split; assumption.
Defined.

Lemma dist2_vertex origin r a b :
  dist2 (vertex origin r a) (vertex origin r b)
  = 2 * (r * r) * (1 - cos (b - a)).
Proof.
  unfold dist2, vertex, aecPoint2; cbn [px py]. rewrite cos_minus.
  assert (Ha := sin2_cos2 a). assert (Hb := sin2_cos2 b). unfold Rsqr in Ha, Hb.
  replace ((px origin + r * cos a - (px origin + r * cos b))
           * (px origin + r * cos a - (px origin + r * cos b))
           + (py origin + r * sin a - (py origin + r * sin b))
             * (py origin + r * sin a - (py origin + r * sin b)))
    with (r * r * ((sin a * sin a + cos a * cos a)
                   + (sin b * sin b + cos b * cos b)
                   - 2 * (cos b * cos a + sin b * sin a))) by ring.
  rewrite Ha, Hb. ring.
Qed.

Lemma Rabs_sqr r : Rabs r * Rabs r = r * r.
Proof. unfold Rabs. destruct (Rcase_abs r); ring. Qed.

(** X5: the polygon of makePolygon is equilateral: every edge, the closing
    one included, has the squared length 2 r^2 (1 - cos(2 pi / n)), n
    being the number of points. *)
Theorem makePolygon_equilateral (origin : aecPoint) (r s : R) :
  r <> 0 ->
  exists l,
    makePolygon origin r s = Loop l
    /\ forall i, (i < length l)%nat ->
         dist2 (vertex_at l i) (vertex_at l (next_index l i))
         = 2 * (r * r) * (1 - cos (2 * PI / INR (length l))).
Proof.
  intros Hr. rewrite makePolygon_eq by exact Hr.
  rewrite <- INR_to_nat_max3.
  set (n := Z.to_nat (Z.max 3 (Int_part (Rabs s)))).
  assert (Hn : (3 <= n)%nat) by (unfold n; lia).
  assert (Hn0 : INR n <> 0) by (apply not_0_INR; lia).
  eexists. split; [reflexivity|].
  rewrite vertices_length. intros i Hi.
  rewrite regular_vertex_at, regular_next by assumption.
  rewrite dist2_vertex, Rabs_sqr. f_equal. f_equal. f_equal.
  rewrite S_INR. field. exact Hn0.
Qed.

Lemma makePolygon_equilateral_witness :
  exists l, makePolygon (aecPoint2 0 0) 2 6 = Loop l
            /\ dist2 (vertex_at l 5) (vertex_at l (next_index l 5))
               = 2 * (2 * 2) * (1 - cos (2 * PI / INR (length l))).
Proof.
  destruct (makePolygon_equilateral (aecPoint2 0 0) 2 6) as (l & H1 & H2);
    [lra|].
  exists l. split; [exact H1|]. apply H2.
  assert (Hi : Int_part (Rabs 6) = 6%Z)
    by (symmetry; apply Int_part_spec; rewrite Rabs_pos_eq by lra; lra).
  rewrite makePolygon_eq in H1 by lra. injection H1 as <-.
  rewrite vertices_length, Hi. cbn. lia.
Defined.

(** X6: the area enclosed by the polygon of makePolygon is
    (n / 2) r^2 sin(2 pi / n), n being the number of points. *)
Theorem makePolygon_area (origin : aecPoint) (r s : R) :
  r <> 0 ->
  exists l,
    makePolygon origin r s = Loop l
    /\ signed_area l
       = INR (length l) / 2 * (r * r) * sin (2 * PI / INR (length l)).
Proof.
  intros Hr. rewrite makePolygon_eq by exact Hr.
  rewrite <- INR_to_nat_max3.
  destruct (Z.to_nat (Z.max 3 (Int_part (Rabs s)))) as [|m] eqn:Hn; [lia|].
  eexists. split; [reflexivity|].
  rewrite vertices_length. unfold signed_area.
  rewrite shoelace_vertices, Rabs_sqr.
  replace (PI * 2 / INR (S m)) with (2 * PI / INR (S m))
    by (field; apply not_0_INR; lia).
  field.
Qed.

Lemma makePolygon_area_witness :
  exists l, makePolygon (aecPoint2 0 0) 2 6 = Loop l
            /\ signed_area l
               = INR (length l) / 2 * (2 * 2) * sin (2 * PI / INR (length l)).
Proof. apply makePolygon_area. lra. Defined.

Lemma makePolygon_ext origin r r' s s' :
  Rabs r = Rabs r' ->
  Z.max 3 (Int_part (Rabs s)) = Z.max 3 (Int_part (Rabs s')) ->
  makePolygon origin r s = makePolygon origin r' s'.
Proof.
  intros Hr Hs. destruct (Req_dec_T r 0) as [H0|H0].
  - assert (H0' : r' = 0).
    { subst r. rewrite Rabs_R0 in Hr.
      destruct (Req_dec_T r' 0) as [E|E]; [exact E|].
      apply Rabs_no_R0 in E. congruence. }
    now rewrite !makePolygon_zero.
  - assert (H0' : r' <> 0).
    { intros ->. rewrite Rabs_R0 in Hr. apply Rabs_no_R0 in H0. congruence. }
    rewrite !makePolygon_eq by assumption. now rewrite Hr, Hs.
Qed.

(** X7: makePolygon depends on its radius only through |r| and on its sides
    only through max(3, floor(|s|)): the signs of both are ignored, a
    fractional side count is cut, and every side count below 4 gives the
    triangle. *)
Theorem makePolygon_normalises (origin : aecPoint) (r s : R) :
  makePolygon origin r s
  = makePolygon origin (Rabs r) (IZR (Z.max 3 (Int_part (Rabs s))))
  /\ makePolygon origin (- r) s = makePolygon origin r s
  /\ makePolygon origin r (- s) = makePolygon origin r s
  /\ (Rabs s < 4 -> makePolygon origin r s = makePolygon origin r 3).
Proof.
  split; [|split; [|split]].
  - apply makePolygon_ext.
    + now rewrite Rabs_Rabsolu.
    + rewrite (Rabs_pos_eq (IZR _)) by (apply IZR_le; lia).
      rewrite Int_part_IZR. lia.
  - apply makePolygon_ext; [apply Rabs_Ropp|reflexivity].
  - apply makePolygon_ext; [reflexivity|now rewrite Rabs_Ropp].
  - intros Hs. apply makePolygon_ext; [reflexivity|].
    rewrite (Rabs_pos_eq 3), Int_part_3 by lra.
    destruct (base_Int_part (Rabs s)) as [Hle _].
    assert (Hlt : (Int_part (Rabs s) < 4)%Z) by (apply lt_IZR; lra).
    lia.
Qed.

Lemma makePolygon_normalises_witness :
  makePolygon (aecPoint2 0 0) 1 (-3.9) = makePolygon (aecPoint2 0 0) 1 3.
Proof.
  apply (makePolygon_normalises (aecPoint2 0 0) 1 (-3.9)).
  unfold Rabs. destruct (Rcase_abs (-3.9)); lra.
Defined.

(** X8: makeCylinder returns False exactly for the radius 0 and a loop of at
    least three points for every other radius; it never returns None. *)
Theorem makeCylinder_returns (origin : aecPoint) (r : R) :
  match makeCylinder origin r with
  | Loop l => r <> 0 /\ (3 <= length l)%nat
  | PyFalse => r = 0
  | PyNone => False
  end.
Proof.
  unfold makeCylinder. destruct (Req_dec_T r 0) as [Hr|Hr].
  - rewrite makePolygon_zero by exact Hr. exact Hr.
  - rewrite makePolygon_eq by exact Hr. split; [exact Hr|].
    rewrite vertices_length. lia.
Qed.

(** *** The union engine and the composite builders, continued *)

Section MoreEngineFacts.

Context {lib : Shapely}.

Lemma add_boundaries_not_a_loop pointSet :
  existsb not_a_loop pointSet = true -> add_boundaries pointSet = None.
Proof.
  induction pointSet as [|r rest IH]; cbn [existsb]; [discriminate|].
  intros H. destruct r as [points| |]; cbn [add_boundaries]; try reflexivity.
  cbn [not_a_loop orb] in H. rewrite (IH H).
  destruct (shapely_Polygon (map xy points)) as [g|]; cbn [obind]; [|reflexivity].
  destruct (shapely_orient g) as [polygon|]; cbn [obind]; [|reflexivity].
  destruct (is_Polygon polygon); reflexivity.
Qed.

Lemma add_not_a_loop pointSet :
  existsb not_a_loop pointSet = true ->
  __add pointSet = (PyNone, [EvUnion pointSet; EvTraceback]).
Proof.
  intros H. unfold __add, add_try.
  rewrite (add_boundaries_not_a_loop _ H). reflexivity.
Qed.

(** X9: when one of the candidates handed to the union engine is not a list
    of points (it is None or False), the engine prints a traceback and
    returns None, whatever the other candidates are and whatever the
    geometry library does with them. *)
Theorem add_rejects_non_list (pointSet : list pyret) :
  existsb not_a_loop pointSet = true ->
  __add pointSet = (PyNone, [EvUnion pointSet; EvTraceback])
  /\ add_try pointSet = None.
Proof.
  intros H. split; [now apply add_not_a_loop|].
  unfold add_try. now rewrite (add_boundaries_not_a_loop _ H).
Qed.

Lemma union_calls_add pointSet : union_calls (__add pointSet) = 1%nat.
Proof.
  unfold union_calls, trace, __add, bind, tell, ret.
  destruct (add_try pointSet); reflexivity.
Qed.

Lemma union_calls_bind {A B : Type} (c : M A) (k : A -> M B) :
  union_calls (bind c k)
  = (union_calls c + union_calls (k (result c)))%nat.
Proof.
  unfold union_calls, trace, result, bind. destruct c as [x t1]. cbn [fst snd].
  destruct (k x) as [y t2]. cbn [snd].
  now rewrite filter_app, length_app.
Qed.

Lemma union_calls_ret (r : pyret) : union_calls (ret r) = 0%nat.
Proof. reflexivity. Qed.

Ltac count_validated :=
  repeat match goal with
         | |- context [Rge_dec ?x ?y] =>
             destruct (Rge_dec x y); [rewrite union_calls_ret; lia|]
         end.

(** X10: makeCross calls the union engine exactly once; makeH, makeL and makeT
    call it at most once; makeU calls it at most twice. *)
Theorem builders_union_calls
    (origin : aecPoint) (xSize ySize : R) (a b c : option R) (xAxis yAxis : R) :
  union_calls (makeCross origin xSize ySize a b xAxis yAxis) = 1%nat
  /\ (union_calls (makeH origin xSize ySize a b c) <= 1)%nat
  /\ (union_calls (makeL origin xSize ySize a b) <= 1)%nat
  /\ (union_calls (makeT origin xSize ySize a b) <= 1)%nat
  /\ (union_calls (makeU origin xSize ySize a b c) <= 2)%nat.
Proof.
  assert (HL : forall o xs ys u v, (union_calls (makeL o xs ys u v) <= 1)%nat).
  { intros. unfold makeL. count_validated. now rewrite union_calls_add. }
  split; [apply union_calls_add|]. split; [|split; [apply HL|split]].
  - unfold makeH. count_validated. now rewrite union_calls_add.
  - unfold makeT. count_validated. now rewrite union_calls_add.
  - unfold makeU. count_validated.
    rewrite union_calls_bind, union_calls_add.
    match goal with |- (union_calls (makeL ?o ?xs ?ys ?u ?v) + 1 <= 2)%nat =>
      assert (H := HL o xs ys u v) end.
    lia.
Qed.

Lemma or_default_nonzero v d : d <> 0 -> or_default v d <> 0.
Proof.
  intros Hd. unfold or_default, falsy. destruct v as [r|]; [|exact Hd].
  destruct (Req_dec_T r 0); assumption.
Qed.

Lemma or_default_below_nonzero v bound :
  or_default v (bound * 0.3) < bound -> or_default v (bound * 0.3) <> 0.
Proof.
  unfold or_default, falsy. destruct v as [r|].
  - destruct (Req_dec_T r 0) as [->|Hr]; [|intros _; exact Hr].
    intros H E. lra.
  - intros H E. lra.
Qed.

(** [makeL] on arguments that pass its validation. *)
Lemma makeL_valid origin xSize ySize w d :
  w <> 0 -> d <> 0 -> w < xSize -> d < ySize ->
  makeL origin xSize ySize (Some w) (Some d)
  = __add [makeBox origin w ySize; makeBox origin xSize d].
Proof.
  intros Hw Hd Hwx Hdy. unfold makeL. rewrite !or_default_truthy by assumption.
  destruct (Rge_dec w xSize); [lra|]. destruct (Rge_dec d ySize); [lra|].
  reflexivity.
Qed.

(** [makeU] past its validation. *)
Lemma makeU_valid origin xSize ySize xWidth1 xWidth2 yDepth :
  or_default xWidth1 (xSize * 0.3) < xSize * 0.5 ->
  or_default xWidth2 (xSize * 0.3) < xSize * 0.5 ->
  or_default yDepth (ySize * 0.3) < ySize ->
  makeU origin xSize ySize xWidth1 xWidth2 yDepth
  = (pointsL <- makeL origin xSize ySize
                  (Some (or_default xWidth1 (xSize * 0.3)))
                  (Some (or_default yDepth (ySize * 0.3))) ;;
     __add [pointsL;
            makeBox (aecPoint2 (px origin
                                + (xSize - or_default xWidth2 (xSize * 0.3)))
                               (py origin))
                    (or_default xWidth2 (xSize * 0.3)) ySize]).
Proof.
  intros H1 H2 H3. unfold makeU.
  destruct (Rge_dec (or_default xWidth1 (xSize * 0.3)) (xSize * 0.5)); [lra|].
  destruct (Rge_dec (or_default xWidth2 (xSize * 0.3)) (xSize * 0.5)); [lra|].
  destruct (Rge_dec (or_default yDepth (ySize * 0.3)) ySize); [lra|].
  reflexivity.
Qed.

(** X11: for a positive xSize and widths that pass the validation, makeU is
    two unions in a row: the L-shape of the left bar and the bottom bar,
    built by makeL from the widths makeU works with, and then the union
    of whatever that returned with the right bar. *)
Theorem makeU_two_unions
    (origin : aecPoint) (xSize ySize : R) (xWidth1 xWidth2 yDepth : option R) :
  0 < xSize ->
  or_default xWidth1 (xSize * 0.3) < xSize * 0.5 ->
  or_default xWidth2 (xSize * 0.3) < xSize * 0.5 ->
  or_default yDepth (ySize * 0.3) < ySize ->
  makeU origin xSize ySize xWidth1 xWidth2 yDepth
  = (pointsL <- __add [makeBox origin (or_default xWidth1 (xSize * 0.3)) ySize;
                       makeBox origin xSize (or_default yDepth (ySize * 0.3))] ;;
     __add [pointsL;
            makeBox (aecPoint2 (px origin
                                + (xSize - or_default xWidth2 (xSize * 0.3)))
                               (py origin))
                    (or_default xWidth2 (xSize * 0.3)) ySize])
  /\ union_calls (makeU origin xSize ySize xWidth1 xWidth2 yDepth) = 2%nat.
Proof.
  intros Hx H1 H2 H3.
  assert (E : makeL origin xSize ySize
                (Some (or_default xWidth1 (xSize * 0.3)))
                (Some (or_default yDepth (ySize * 0.3)))
              = __add [makeBox origin (or_default xWidth1 (xSize * 0.3)) ySize;
                       makeBox origin xSize (or_default yDepth (ySize * 0.3))]).
  { apply makeL_valid; try lra.
    - apply or_default_nonzero. lra.
    - now apply or_default_below_nonzero. }
  rewrite makeU_valid, E by assumption. split; [reflexivity|].
  now rewrite union_calls_bind, !union_calls_add.
Qed.

(** X12: with a negative xSize, a left width that is below half of xSize but
    not below xSize passes the validation of makeU and fails the one of
    makeL: makeU then hands None to the union engine as a candidate,
    which prints a traceback, and makeU returns None. *)
Theorem makeU_inner_L_rejected
    (origin : aecPoint) (xSize ySize : R) (xWidth1 xWidth2 yDepth : option R) :
  xSize <= or_default xWidth1 (xSize * 0.3) ->
  or_default xWidth1 (xSize * 0.3) < xSize * 0.5 ->
  or_default xWidth2 (xSize * 0.3) < xSize * 0.5 ->
  or_default yDepth (ySize * 0.3) < ySize ->
  makeU origin xSize ySize xWidth1 xWidth2 yDepth
  = (PyNone,
     [EvUnion [PyNone;
               makeBox (aecPoint2 (px origin
                                   + (xSize - or_default xWidth2 (xSize * 0.3)))
                                  (py origin))
                       (or_default xWidth2 (xSize * 0.3)) ySize];
      EvTraceback]).
Proof.
  intros H0 H1 H2 H3.
  assert (E : makeL origin xSize ySize
                (Some (or_default xWidth1 (xSize * 0.3)))
                (Some (or_default yDepth (ySize * 0.3)))
              = (PyNone, [])).
  { unfold makeL. rewrite (or_default_truthy (or_default xWidth1 _)) by lra.
    destruct (Rge_dec (or_default xWidth1 (xSize * 0.3)) xSize); [reflexivity|lra]. }
  rewrite makeU_valid, E by assumption.
  unfold bind at 1. cbn [ret]. rewrite add_not_a_loop by reflexivity.
  reflexivity.
Qed.

End MoreEngineFacts.

Lemma add_rejects_non_list_witness :
  __add (lib := disjoint_lib) [makeBox (aecPoint2 0 0) 1 1; PyNone]
  = (PyNone, [EvUnion [makeBox (aecPoint2 0 0) 1 1; PyNone]; EvTraceback]).
Proof.
  apply (add_rejects_non_list (lib := disjoint_lib)). reflexivity.
Defined.

Lemma makeU_two_unions_witness :
  union_calls (makeU (lib := disjoint_lib) (aecPoint2 0 0) 10 10 None (Some 2) None)
  = 2%nat.
Proof.
  apply (makeU_two_unions (lib := disjoint_lib)).
  - lra.
  - unfold or_default; cbn [falsy]; lra.
  - rewrite or_default_truthy by lra. lra.
  - unfold or_default; cbn [falsy]; lra.
Defined.

Lemma makeU_inner_L_rejected_witness :
  result (makeU (lib := disjoint_lib) (aecPoint2 0 0) (-10) 10
            (Some (-6)) (Some (-6)) None)
  = PyNone.
Proof.
  rewrite (makeU_inner_L_rejected (lib := disjoint_lib)).
  - reflexivity.
  - rewrite or_default_truthy by lra. lra.
  - rewrite or_default_truthy by lra. lra.
  - rewrite or_default_truthy by lra. lra.
  - unfold or_default; cbn [falsy]; lra.
Defined.

Section BuilderArguments.

Context {lib : Shapely}.

Lemma union_invoked_add pointSet : union_invoked (__add pointSet) = true.
Proof.
  unfold union_invoked. destruct (add_trace_head pointSet) as [rest ->].
  reflexivity.
Qed.

Lemma union_invoked_bind_add {A : Type} (c : M A) (k : A -> list pyret) :
  union_invoked (x <- c ;; __add (k x)) = true.
Proof.
  unfold union_invoked, trace, bind. destruct c as [x t1].
  destruct (__add (k x)) as [y t2] eqn:E. cbn [snd].
  rewrite existsb_app. apply orb_true_iff. right.
  change t2 with (trace (y, t2)). rewrite <- E. apply union_invoked_add.
Qed.

(** X13: with every width and depth left out, makeL, makeT, makeH and makeU
    reach the union engine when both sizes are positive, and return None
    at once, without calling it, when a size is zero or negative. *)
Theorem default_widths_need_positive_sizes (origin : aecPoint) (xSize ySize : R) :
  (0 < xSize -> 0 < ySize ->
     union_invoked (makeL origin xSize ySize None None) = true
     /\ union_invoked (makeT origin xSize ySize None None) = true
     /\ union_invoked (makeH origin xSize ySize None None None) = true
     /\ union_invoked (makeU origin xSize ySize None None None) = true)
  /\ (xSize <= 0 \/ ySize <= 0 ->
        makeL origin xSize ySize None None = (PyNone, [])
        /\ makeT origin xSize ySize None None = (PyNone, [])
        /\ makeH origin xSize ySize None None None = (PyNone, [])
        /\ makeU origin xSize ySize None None None = (PyNone, [])).
Proof.
  split.
  - intros Hx Hy. unfold makeL, makeT, makeH, makeU, or_default. cbn [falsy].
    destruct (Rge_dec (xSize * 0.5) xSize); [lra|].
    destruct (Rge_dec (ySize * 0.5) ySize); [lra|].
    destruct (Rge_dec (xSize * 0.3) (xSize * 0.5)); [lra|].
    destruct (Rge_dec (ySize * 0.3) ySize); [lra|].
    repeat split; try apply union_invoked_add.
    apply (union_invoked_bind_add _
             (fun pointsL =>
                [pointsL;
                 makeBox (aecPoint2 (px origin + (xSize - xSize * 0.3)) (py origin))
                         (xSize * 0.3) ySize])).
  - intros H. unfold makeL, makeT, makeH, makeU, or_default, ret. cbn [falsy].
    destruct (Rge_dec (xSize * 0.5) xSize), (Rge_dec (ySize * 0.5) ySize),
             (Rge_dec (xSize * 0.3) (xSize * 0.5)), (Rge_dec (ySize * 0.3) ySize);
      try (repeat split; reflexivity); exfalso; destruct H; lra.
Qed.

Lemma within_box_makeBox origin xSize ySize x0 y0 w h :
  px origin <= x0 -> x0 + w <= px origin + xSize ->
  py origin <= y0 -> y0 + h <= py origin + ySize ->
  0 <= w -> 0 <= h ->
  within_box origin xSize ySize (makeBox (aecPoint2 x0 y0) w h).
Proof.
  intros. unfold within_box, makeBox; cbn [px py aecPoint2].
  repeat (apply Forall_cons; [unfold aecPoint2; simpl; lra|]). apply Forall_nil.
Qed.

(** X14: in exact arithmetic, for positive widths below their bounds, every
    rectangle that makeL, makeT and makeH hand to the union engine lies
    within the box spanned by the origin, xSize and ySize; so do the arms
    of makeCross when its two axes are at 0.5 and its widths do not exceed
    the sizes. *)
Theorem arms_within_box
    (origin : aecPoint) (xSize ySize w d w1 w2 : R) :
  0 < w < xSize -> 0 < d < ySize ->
  0 < w1 < xSize * 0.5 -> 0 < w2 < xSize * 0.5 ->
  (exists arms rest,
      trace (makeL origin xSize ySize (Some w) (Some d)) = EvUnion arms :: rest
      /\ length arms = 2%nat /\ Forall (within_box origin xSize ySize) arms)
  /\ (exists arms rest,
         trace (makeT origin xSize ySize (Some w) (Some d)) = EvUnion arms :: rest
         /\ length arms = 2%nat /\ Forall (within_box origin xSize ySize) arms)
  /\ (exists arms rest,
         trace (makeH origin xSize ySize (Some w1) (Some w2) (Some d))
         = EvUnion arms :: rest
         /\ length arms = 3%nat /\ Forall (within_box origin xSize ySize) arms)
  /\ (exists arms rest,
         trace (makeCross origin xSize ySize (Some w) (Some d) 0.5 0.5)
         = EvUnion arms :: rest
         /\ length arms = 2%nat /\ Forall (within_box origin xSize ySize) arms).
Proof.
  intros Hw Hd Hw1 Hw2.
  unfold makeL, makeT, makeH, makeCross.
  rewrite !or_default_truthy by lra.
  destruct (Rge_dec w xSize); [lra|]. destruct (Rge_dec d ySize); [lra|].
  destruct (Rge_dec w1 (xSize * 0.5)); [lra|].
  destruct (Rge_dec w2 (xSize * 0.5)); [lra|].
  assert (Ho : makeBox origin = makeBox (aecPoint2 (px origin) (py origin)))
    by reflexivity.
  repeat split;
    match goal with
    | |- exists arms rest, trace (__add ?ps) = _ /\ _ =>
        destruct (add_trace_head ps) as [rest Hrest];
        exists ps, rest; split; [exact Hrest|split; [reflexivity|]]
    end;
    rewrite ?Ho;
    repeat (apply Forall_cons; [apply within_box_makeBox; cbn [px py]; lra|]);
    apply Forall_nil.
Qed.

(** X15: no generator reads the z coordinate of the origin: two origins with
    the same x and y give the same result and the same effects. *)
Theorem origin_z_ignored
    (o o' : aecPoint) (xSize ySize r s : R) (a b c : option R) (xAxis yAxis : R) :
  px o = px o' -> py o = py o' ->
  makeBox o xSize ySize = makeBox o' xSize ySize
  /\ makePolygon o r s = makePolygon o' r s
  /\ makeCylinder o r = makeCylinder o' r
  /\ makeCross o xSize ySize a b xAxis yAxis
     = makeCross o' xSize ySize a b xAxis yAxis
  /\ makeH o xSize ySize a b c = makeH o' xSize ySize a b c
  /\ makeL o xSize ySize a b = makeL o' xSize ySize a b
  /\ makeT o xSize ySize a b = makeT o' xSize ySize a b
  /\ makeU o xSize ySize a b c = makeU o' xSize ySize a b c.
Proof.
  intros Hx Hy.
  assert (HB : forall xs ys, makeBox o xs ys = makeBox o' xs ys)
    by (intros; unfold makeBox; now rewrite Hx, Hy).
  assert (HL : forall xs ys u v, makeL o xs ys u v = makeL o' xs ys u v)
    by (intros; unfold makeL; now rewrite !HB).
  split; [apply HB|]. split; [now apply makePolygon_origin_xy|].
  split; [now apply makePolygon_origin_xy|].
  unfold makeCross, makeH, makeT, makeU.
  rewrite !HB, ?Hx, ?Hy. repeat split; try reflexivity.
  all: repeat match goal with
         | |- context [Rge_dec ?x ?y] => destruct (Rge_dec x y); [reflexivity|]
         end.
  all: rewrite ?HL, ?HB, ?Hx, ?Hy; reflexivity.
Qed.

Lemma add_flat pointSet : flat (result (__add pointSet)).
Proof.
  unfold __add, result, bind, tell, ret, add_try, obind.
  destruct (add_boundaries pointSet) as [bs|]; cbn; [|exact I].
  destruct (shapely_MultiPolygon bs) as [mp|]; cbn; [|exact I].
  destruct (shapely_unary_union mp) as [[ext ints|parts|]|]; cbn; try exact I.
  apply Forall_forall. intros p Hp. apply in_map_iff in Hp.
  destruct Hp as (c & <- & _). reflexivity.
Qed.

Ltac flat_validated :=
  repeat match goal with
         | |- context [Rge_dec ?x ?y] => destruct (Rge_dec x y); [exact I|]
         end.

(** X16: every point of every loop returned by a generator has z = 0, whatever
    the z of the origin is. *)
Theorem generators_flat
    (origin : aecPoint) (xSize ySize r s : R) (a b c : option R)
    (xAxis yAxis : R) (pointSet : list pyret) :
  flat (makeBox origin xSize ySize)
  /\ flat (makePolygon origin r s)
  /\ flat (makeCylinder origin r)
  /\ flat (result (__add pointSet))
  /\ flat (result (makeCross origin xSize ySize a b xAxis yAxis))
  /\ flat (result (makeH origin xSize ySize a b c))
  /\ flat (result (makeL origin xSize ySize a b))
  /\ flat (result (makeT origin xSize ySize a b))
  /\ flat (result (makeU origin xSize ySize a b c)).
Proof.
  assert (HP : forall s', flat (makePolygon origin r s')).
  { intros s'. destruct (Req_dec_T r 0) as [Hr|Hr].
    - rewrite makePolygon_zero by exact Hr. exact I.
    - rewrite makePolygon_eq by exact Hr. apply vertices_flat. }
  split; [cbn; repeat (apply Forall_cons; [reflexivity|]); apply Forall_nil|].
  split; [apply HP|]. split; [apply HP|].
  split; [apply add_flat|].
  unfold makeCross, makeH, makeL, makeT, makeU.
  repeat split.
  - apply add_flat.
  - flat_validated. apply add_flat.
  - flat_validated. apply add_flat.
  - flat_validated. apply add_flat.
  - flat_validated. rewrite result_bind. apply add_flat.
Qed.

End BuilderArguments.

Lemma default_widths_need_positive_sizes_witness :
  union_invoked (makeL (lib := disjoint_lib) (aecPoint2 0 0) 10 10 None None) = true
  /\ makeH (lib := disjoint_lib) (aecPoint2 0 0) 0 10 None None None = (PyNone, []).
Proof.
  destruct (default_widths_need_positive_sizes (lib := disjoint_lib)
              (aecPoint2 0 0) 10 10) as [Hpos _].
  destruct (default_widths_need_positive_sizes (lib := disjoint_lib)
              (aecPoint2 0 0) 0 10) as [_ Hneg].
  split.
  - apply Hpos; lra.
  - apply Hneg. left. lra.
Defined.

Lemma arms_within_box_witness :
  exists arms rest,
    trace (makeT (lib := disjoint_lib) (aecPoint2 0 0) 10 10 (Some 4) (Some 3))
    = EvUnion arms :: rest
    /\ length arms = 2%nat
    /\ Forall (within_box (aecPoint2 0 0) 10 10) arms.
Proof.
  apply (arms_within_box (lib := disjoint_lib) (aecPoint2 0 0) 10 10 4 3 2 2);
    lra.
Defined.

Lemma origin_z_ignored_witness :
  makeBox (mkPoint 1 2 3) 4 5 = makeBox (mkPoint 1 2 9) 4 5
  /\ makeCross (lib := disjoint_lib) (mkPoint 1 2 3) 4 5 None None 0.5 0.5
     = makeCross (lib := disjoint_lib) (mkPoint 1 2 9) 4 5 None None 0.5 0.5.
Proof.
  destruct (origin_z_ignored (lib := disjoint_lib) (mkPoint 1 2 3) (mkPoint 1 2 9)
              4 5 1 3 None None None 0.5 0.5 eq_refl eq_refl)
    as (H1 & _ & _ & H4 & _).
  split; assumption.
Defined.
